(** * Verification of the room-assistant Bluetooth Low Energy service

    Shallow embedding of
    [src/integrations/bluetooth-low-energy/bluetooth-low-energy.service.ts]:
    advertisement classification, the companion-app identity resolver with
    its cache and temporary denylist, the allow/deny filter, event
    construction, sensor creation in [handleNewDistance], and the lodash
    throttle that rate-limits each tag's updates; and of
    [src/integrations/home-assistant/home-assistant.service.ts]: combined
    ids, entity registration, state and attribute publishing with lodash's
    debounce, message formatting and shutdown. *)

From Stdlib Require Import ZArith QArith.
From stdpp Require Import base gmap sets list strings.

(** ** Data model *)

(** A noble [Peripheral], as far as the service reads it. The manufacturer
    data is an optional [Buffer] of bytes (values 0..255). *)
Record Peripheral := mkPeripheral {
  peripheral_id : string;
  connectable : bool;
  manufacturerData : option (list Z)
}.

(** A [Tag] (or [IBeacon], see [tag_isIBeacon]) as the service uses it. *)
Record Tag := mkTag {
  tag_id : string;
  tag_name : string;
  tag_rssi : Z;
  tag_peripheral : Peripheral;
  tag_measuredPower : Z;
  tag_isApp : bool;
  tag_isIBeacon : bool;
  tag_batteryLevel : option Z
}.

(** [tag.id = appId; tag.isApp = true;] *)
Definition setAppId (t : Tag) (appId : string) : Tag :=
  mkTag appId (tag_name t) (tag_rssi t) (tag_peripheral t)
        (tag_measuredPower t) true (tag_isIBeacon t) (tag_batteryLevel t).

(** Buffer reads used by the service. *)
Definition readUInt8 (b : list Z) (off : nat) : Z := nth off b 0%Z.

Definition readUInt16LE (b : list Z) (off : nat) : Z :=
  (readUInt8 b off + 256 * readUInt8 b (S off))%Z.

(** ** Companion-app identity resolver *)

(** [const APPLE_ADVERTISEMENT_ID = Buffer.from([0x4c, 0x00, 0x10])] *)
Definition APPLE_ADVERTISEMENT_ID : list Z := [76%Z; 0%Z; 16%Z].

(** Process-wide resolver state: [companionAppTags] (a JS [Map] whose values
    are [string | null]; [None] is [null]), [companionAppDenylist] (a JS
    [Set]), the [setTimeout] callbacks that remove denylist entries (delay in
    milliseconds and identity), and the handshakes currently suspended at the
    [await] of [applyCompanionAppOverride] (one list element per suspended
    call, holding the tag id it was started for). *)
Record CompanionState := mkCS {
  companionAppTags : gmap string (option string);
  companionAppDenylist : gset string;
  denylistTimers : list (Z * string);
  inflight : list string
}.

Definition initialCompanionState : CompanionState := mkCS ∅ ∅ [] [].

(** [Map.prototype.has] *)
Definition mapHas (m : gmap string (option string)) (k : string) : bool :=
  match m !! k with Some _ => true | None => false end.

(** [x != null] for the result of [Map.prototype.get] ([undefined] when
    absent, [null] when pending). *)
Definition isNonNull (v : option (option string)) : bool :=
  match v with Some (Some _) => true | _ => false end.

(** The eligibility gate of [applyCompanionAppOverride]:
    [tag.peripheral.connectable &&
     manufacturerData?.slice(0, 3).equals(APPLE_ADVERTISEMENT_ID) &&
     manufacturerData.length > 6]. *)
Definition companionGate (p : Peripheral) : bool :=
  connectable p &&
  match manufacturerData p with
  | None => false
  | Some md =>
      bool_decide (firstn 3 md = APPLE_ADVERTISEMENT_ID) &&
      (6 <? Z.of_nat (length md))%Z
  end.

(** [handleAppDiscovery(tagId, appId)]: does not override an existing
    non-null value with null. *)
Definition handleAppDiscovery (st : CompanionState) (tagId : string)
    (appId : option string) : CompanionState :=
  let oldId := companionAppTags st !! tagId in
  if negb (isNonNull oldId && match appId with None => true | Some _ => false end)
  then mkCS (<[tagId := appId]> (companionAppTags st))
            (companionAppDenylist st ∖ {[tagId]})
            (denylistTimers st) (inflight st)
  else st.

(** The synchronous prefix of [applyCompanionAppOverride], up to the
    [await this.discoverCompanionAppId(tag)]. The boolean tells whether the
    call suspended there (a handshake was started). *)
Definition applyCompanionAppOverride_start (st : CompanionState) (tag : Tag)
    : CompanionState * bool :=
  let id := tag_id tag in
  if companionGate (tag_peripheral tag) then
    if negb (mapHas (companionAppTags st) id) &&
       negb (bool_decide (id ∈ companionAppDenylist st))
    then (mkCS (<[id := None]> (companionAppTags st))
               (companionAppDenylist st) (denylistTimers st)
               (id :: inflight st), true)
    else (st, false)
  else (st, false).

(** The tail of [applyCompanionAppOverride]:
    [const appId = this.companionAppTags.get(tag.id);
     if (appId != null) { tag.id = appId; tag.isApp = true; }]. *)
Definition applyCachedAppId (st : CompanionState) (tag : Tag) : Tag :=
  match companionAppTags st !! tag_id tag with
  | Some (Some appId) => setAppId tag appId
  | _ => tag
  end.

(** [applyCompanionAppOverride] when it does not suspend: the resulting state
    and, if it ran to completion synchronously, the returned tag. *)
Definition applyCompanionAppOverride_sync (st : CompanionState) (tag : Tag)
    : CompanionState * option Tag :=
  let '(st', started) := applyCompanionAppOverride_start st tag in
  if started then (st', None) else (st', Some (applyCachedAppId st' tag)).

(** How a promise settles. *)
Inductive Settled (A : Type) :=
| Resolved (a : A)
| Rejected (message : string).
Arguments Resolved {A} a.
Arguments Rejected {A} message.

(** How [bluetoothService.connectLowEnergyDevice] settles (the driver). *)
Inductive ConnectOutcome :=
| ConnectResolved
| ConnectRejected (message : string).

(** Which contender of the 15-second race in [discoverCompanionAppId] settles
    first: [readCompanionAppId] (resolving with the characteristic value or
    [null], or rejecting), the peripheral's ['disconnect'] listener (which
    resolves with [null]), or the 15-second timer of [promiseWithTimeout]. *)
Inductive RaceOutcome :=
| ReadResolved (value : option string)
| ReadRejected (message : string)
| PeerDisconnect
| HandshakeTimedOut.

(** [promiseWithTimeout(Promise.race([read, disconnectPromise]), 15 * 1000)];
    the timer rejects with the message ["timed out"] that the caller in
    [applyCompanionAppOverride] compares against. *)
Definition promiseWithTimeout_race (r : RaceOutcome) : Settled (option string) :=
  match r with
  | ReadResolved v => Resolved v
  | ReadRejected m => Rejected m
  | PeerDisconnect => Resolved None
  | HandshakeTimedOut => Rejected "timed out"%string
  end.

(** [discoverCompanionAppId(tag)]: the connect is awaited outside the
    [try], so its rejection propagates; any rejection of the race is caught,
    logged, and turned into [return null]. *)
Definition discoverCompanionAppId (c : ConnectOutcome) (r : RaceOutcome)
    : Settled (option string) :=
  match c with
  | ConnectRejected m => Rejected m
  | ConnectResolved =>
      match promiseWithTimeout_race r with
      | Resolved v => Resolved v
      | Rejected _ => Resolved None
      end
  end.

(** Removes the first occurrence (one suspended call finishing). *)
Fixpoint remove_one (x : string) (l : list string) : list string :=
  match l with
  | [] => []
  | y :: l' => if String.eqb x y then l' else y :: remove_one x l'
  end.

(** The denylist cool-down: [3 * 60 * 1000] milliseconds. *)
Definition DENYLIST_COOLDOWN : Z := (3 * 60 * 1000)%Z.

(** The continuation of [applyCompanionAppOverride] after the [await]:
    the [try] body ([handleAppDiscovery(tag.id, appId)]) when
    [discoverCompanionAppId] resolved, the [catch] block when it rejected. *)
Definition applyCompanionAppOverride_finish (st : CompanionState) (id : string)
    (res : Settled (option string)) : CompanionState :=
  let st := mkCS (companionAppTags st) (companionAppDenylist st)
                 (denylistTimers st) (remove_one id (inflight st)) in
  match res with
  | Resolved appId => handleAppDiscovery st id appId
  | Rejected msg =>
      let st :=
        if String.eqb msg "timed out"%string
        then mkCS (companionAppTags st) ({[id]} ∪ companionAppDenylist st)
                  ((DENYLIST_COOLDOWN, id) :: denylistTimers st) (inflight st)
        else st in
      mkCS (delete id (companionAppTags st)) (companionAppDenylist st)
           (denylistTimers st) (inflight st)
  end.

(** The resumed [applyCompanionAppOverride]: new state and returned tag. *)
Definition applyCompanionAppOverride_resume (st : CompanionState) (tag : Tag)
    (c : ConnectOutcome) (r : RaceOutcome) : CompanionState * Tag :=
  let st' := applyCompanionAppOverride_finish st (tag_id tag)
               (discoverCompanionAppId c r) in
  (st', applyCachedAppId st' tag).

(** A [setTimeout(() => this.companionAppDenylist.delete(tag.id), ...)]
    callback running. *)
Definition denylistTimerFires (st : CompanionState) (d : Z) (id : string)
    : CompanionState :=
  mkCS (companionAppTags st) (companionAppDenylist st ∖ {[id]})
       (filter (fun e => e ≠ (d, id)) (denylistTimers st)) (inflight st).

(** The interleavings of the single-threaded event loop, as they touch the
    resolver state: a discovery callback runs [applyCompanionAppOverride] up
    to its first suspension; a suspended call resumes with whatever outcome
    the driver produced; [handleNewDistance] receives an [isApp] event (local
    or from the cluster) and calls [handleAppDiscovery(peripheralId, tagId)];
    a denylist timer fires. *)
Inductive companion_step : CompanionState -> CompanionState -> Prop :=
| step_discovery st tag :
    companion_step st (fst (applyCompanionAppOverride_start st tag))
| step_resume st tag c r :
    In (tag_id tag) (inflight st) ->
    companion_step st (fst (applyCompanionAppOverride_resume st tag c r))
| step_app_event st peripheralId tagId :
    companion_step st (handleAppDiscovery st peripheralId (Some tagId))
| step_denylist_timer st d id :
    In (d, id) (denylistTimers st) ->
    companion_step st (denylistTimerFires st d id).

(** ** Configuration *)

(** The fields of [BluetoothLowEnergyConfig] the service reads. Optional
    lists are [option] ([undefined] is [None]); the regex flags are [false]
    when unset. Distances are JS numbers, taken here as rationals. *)
Record BluetoothLowEnergyConfig := mkConfig {
  processIBeacon : bool;
  onlyIBeacon : bool;
  majorMask : Z;
  minorMask : Z;
  batteryMask : Z;
  allowlist : option (list string);
  whitelist : option (list string);
  denylist : option (list string);
  blacklist : option (list string);
  allowlistRegex : bool;
  whitelistRegex : bool;
  denylistRegex : bool;
  blacklistRegex : bool;
  maxDistance : Q;
  updateFrequency : Z;
  timeout : Z
}.

(** ** Advertisement classification *)

(** [isIBeacon(manufacturerData)]; [&&] short-circuits, so the reads happen
    only on a buffer of at least 25 bytes. *)
Definition isIBeacon (md : option (list Z)) : bool :=
  match md with
  | None => false
  | Some b =>
      (25 <=? Z.of_nat (length b))%Z &&
      (readUInt16LE b 0 =? 76)%Z &&
      (readUInt8 b 2 =? 2)%Z &&
      (readUInt8 b 3 =? 21)%Z
  end.

(** What [createTag] constructs. *)
Inductive CreatedTag :=
| NewTag (p : Peripheral)
| NewIBeacon (p : Peripheral) (majorMask minorMask batteryMask : Z).

(** [createTag(peripheral)] *)
Definition createTag (cfg : BluetoothLowEnergyConfig) (p : Peripheral) : CreatedTag :=
  if processIBeacon cfg && isIBeacon (manufacturerData p)
  then NewIBeacon p (majorMask cfg) (minorMask cfg) (batteryMask cfg)
  else NewTag p.

Definition isIBeaconInstance (t : CreatedTag) : bool :=
  match t with NewIBeacon _ _ _ _ => true | NewTag _ => false end.

(** ** Allow/deny filter and event construction *)

Definition nonEmpty (l : option (list string)) : bool :=
  match l with Some (_ :: _) => true | _ => false end.

Definition orEmpty (l : option (list string)) : list string :=
  match l with Some l => l | None => [] end.

Section Filter.
(** [String.prototype.toLowerCase] *)
Variable toLowerCase : string -> string.
(** [id.match(pattern) !== null] for a pattern string converted to a
    [RegExp]. *)
Variable regexMatches : string -> string -> bool.

Definition isAllowlistEnabled (cfg : BluetoothLowEnergyConfig) : bool :=
  nonEmpty (allowlist cfg) || nonEmpty (whitelist cfg).

Definition isDenylistEnabled (cfg : BluetoothLowEnergyConfig) : bool :=
  nonEmpty (denylist cfg) || nonEmpty (blacklist cfg).

(** Shared body of [isOnAllowlist] and [isOnDenylist]. *)
Definition isOnList (list : list string) (useRegex : bool) (id : string) : bool :=
  match list with
  | [] => false
  | _ =>
      if useRegex then existsb (fun regex => regexMatches id regex) list
      else existsb (fun x => String.eqb x (toLowerCase id)) (map toLowerCase list)
  end.

Definition isOnAllowlist (cfg : BluetoothLowEnergyConfig) (id : string) : bool :=
  isOnList (orEmpty (allowlist cfg) ++ orEmpty (whitelist cfg))
           (allowlistRegex cfg || whitelistRegex cfg) id.

Definition isOnDenylist (cfg : BluetoothLowEnergyConfig) (id : string) : bool :=
  isOnList (orEmpty (denylist cfg) ++ orEmpty (blacklist cfg))
           (denylistRegex cfg || blacklistRegex cfg) id.

(** The condition guarding the body of [handleDiscovery]. *)
Definition passesFilter (cfg : BluetoothLowEnergyConfig) (id : string) : bool :=
  (isOnAllowlist cfg id || (negb (isAllowlistEnabled cfg) && isDenylistEnabled cfg)) &&
  negb (isOnDenylist cfg id).
End Filter.

(** [NewDistanceEvent] *)
Record NewDistanceEvent := mkEvent {
  ev_instanceName : string;
  ev_tagId : string;
  ev_tagName : string;
  ev_peripheralId : string;
  ev_isApp : bool;
  ev_rssi : Z;
  ev_measuredPower : Z;
  ev_distance : Q;
  ev_outOfRange : bool;
  ev_batteryLevel : option Z
}.

(** JS [a > b] on numbers. *)
Definition Qgtb (a b : Q) : bool :=
  match Qcompare a b with Gt => true | _ => false end.

Section Event.
(** The [Tag.distance] getter (outside this file), from the smoothed
    signal strength and the measured power. *)
Variable tagDistance : Z -> Z -> Q.

(** The event built in [handleDiscovery] from a tag whose overrides are
    applied and whose [rssi] has been smoothed. *)
Definition buildEvent (cfg : BluetoothLowEnergyConfig) (instanceName : string)
    (tag : Tag) : NewDistanceEvent :=
  let d := tagDistance (tag_rssi tag) (tag_measuredPower tag) in
  mkEvent instanceName (tag_id tag) (tag_name tag)
    (peripheral_id (tag_peripheral tag)) (tag_isApp tag) (tag_rssi tag)
    (tag_measuredPower tag) d (Qgtb d (maxDistance cfg))
    (if tag_isIBeacon tag then tag_batteryLevel tag else None).
End Event.

(** ** Sensor creation in [handleNewDistance] *)

(** The observable effects of [handleNewDistance] on the entity registry and
    the scheduler, in program order. *)
Inductive EntityAction :=
| AddDeviceTracker (id name : string)
| AddBatterySensor (id name : string)
| AddRoomPresenceSensor (id name : string) (timeout : Z)
| AddTimeoutInterval (name : string) (ms : Z)
| HandleNewMeasurement (sensorId instanceName : string) (rssi measuredPower : Z)
    (distance : Q) (outOfRange : bool) (batteryLevel : option Z).

(** The [EntitiesService] registry (ids of added entities) and the effect
    log. *)
Record EntityState := mkES {
  entityIds : list string;
  entityLog : list EntityAction
}.

Definition addEntity (es : EntityState) (id : string) (a : EntityAction) : EntityState :=
  mkES (entityIds es ++ [id]) (entityLog es ++ [a]).

Section NewDistance.
(** [makeId] of [util/id] (outside this file). *)
Variable makeId : string -> string.

(** [createRoomPresenceSensor(sensorId, deviceId, deviceName, hasBattery)] *)
Definition createRoomPresenceSensor (cfg : BluetoothLowEnergyConfig)
    (es : EntityState) (sensorId deviceName : string) (hasBattery : bool)
    : EntityState :=
  let trackerId := makeId (sensorId +:+ "-tracker") in
  let es := addEntity es trackerId
              (AddDeviceTracker trackerId (deviceName +:+ " Tracker")) in
  let batteryId := makeId (sensorId +:+ "-battery") in
  let es := if hasBattery
            then addEntity es batteryId
                   (AddBatterySensor batteryId (deviceName +:+ " Battery"))
            else es in
  let es := addEntity es sensorId
              (AddRoomPresenceSensor sensorId (deviceName +:+ " Room Presence")
                 (timeout cfg)) in
  mkES (entityIds es)
       (entityLog es ++ [AddTimeoutInterval (sensorId +:+ "_timeout_check")
                           (timeout cfg * 1000)]).

(** [handleNewDistance(event)] on the resolver and entity state. *)
Definition handleNewDistance (cfg : BluetoothLowEnergyConfig)
    (cs : CompanionState) (es : EntityState) (ev : NewDistanceEvent)
    : CompanionState * EntityState :=
  let sensorId := makeId ("ble " +:+ ev_tagId ev) in
  let hasBattery := match ev_batteryLevel ev with Some _ => true | None => false end in
  let cs := if ev_isApp ev
            then handleAppDiscovery cs (ev_peripheralId ev) (Some (ev_tagId ev))
            else cs in
  let es := if bool_decide (sensorId ∈ entityIds es) then es
            else createRoomPresenceSensor cfg es sensorId (ev_tagName ev) hasBattery in
  (cs, mkES (entityIds es)
            (entityLog es ++ [HandleNewMeasurement sensorId (ev_instanceName ev)
                                (ev_rssi ev) (ev_measuredPower ev) (ev_distance ev)
                                (ev_outOfRange ev) (ev_batteryLevel ev)])).
End NewDistance.

(** ** Per-tag throttling

    [handleDiscovery] creates, once per tag id,
    [_.throttle(fn, this.config.updateFrequency * 1000)], where [fn] calls
    [handleNewDistance(event)] and publishes the event on the cluster bus.
    lodash's [throttle(func, wait)] is its [debounce] with
    [leading = trailing = true] and [maxWait = wait]; below is that code
    (lodash 4.17) with times as integers in milliseconds, the pending timer
    recorded by its deadline, and the calls of [func] collected in order. *)
Module Throttle.
Section Throttle.
Variable A : Type.
(** [wait] (and [maxWait]) *)
Variable wait : Z.
Local Open Scope Z_scope.

Record state := mkState {
  lastArgs : option A;
  lastCallTime : option Z;
  lastInvokeTime : Z;
  timerId : option Z
}.

Definition init : state := mkState None None 0 None.

Definition shouldInvoke (st : state) (time : Z) : bool :=
  match lastCallTime st with
  | None => true
  | Some lct =>
      (wait <=? time - lct)%Z || (time - lct <? 0)%Z ||
      (wait <=? time - lastInvokeTime st)%Z
  end.

Definition remainingWait (st : state) (time : Z) : Z :=
  let timeSinceLastCall := match lastCallTime st with Some l => time - l | None => 0 end in
  Z.min (wait - timeSinceLastCall) (wait - (time - lastInvokeTime st)).

(** [invokeFunc(time)]: calls [func] with [lastArgs] and clears them. *)
Definition invokeFunc (st : state) (time : Z) : state * list A :=
  (mkState None (lastCallTime st) time (timerId st),
   match lastArgs st with Some a => [a] | None => [] end).

(** [trailingEdge(time)] *)
Definition trailingEdge (st : state) (time : Z) : state * list A :=
  let st := mkState (lastArgs st) (lastCallTime st) (lastInvokeTime st) None in
  match lastArgs st with
  | Some _ => invokeFunc st time
  | None => (mkState None (lastCallTime st) (lastInvokeTime st) None, [])
  end.

(** [timerExpired()], run at [time]. *)
Definition timerExpired (st : state) (time : Z) : state * list A :=
  if shouldInvoke st time then trailingEdge st time
  else (mkState (lastArgs st) (lastCallTime st) (lastInvokeTime st)
                (Some (time + remainingWait st time)), []).

(** [debounced(arg)], called at [time]. *)
Definition call (st : state) (time : Z) (arg : A) : state * list A :=
  let isInvoking := shouldInvoke st time in
  let st := mkState (Some arg) (Some time) (lastInvokeTime st) (timerId st) in
  if isInvoking then
    match timerId st with
    | None =>
        (* leadingEdge(lastCallTime) *)
        invokeFunc (mkState (lastArgs st) (lastCallTime st) time (Some (time + wait)))
                   time
    | Some _ =>
        (* maxing: restart the timer and invoke *)
        invokeFunc (mkState (lastArgs st) (lastCallTime st) (lastInvokeTime st)
                            (Some (time + wait))) time
    end
  else
    match timerId st with
    | None => (mkState (lastArgs st) (lastCallTime st) (lastInvokeTime st)
                       (Some (time + wait)), [])
    | Some _ => (st, [])
    end.

(** Runs the pending timer while its deadline is not after [upto]
    ([None]: until no timer is left), at most [fuel] times. *)
Fixpoint fireTimers (fuel : nat) (st : state) (upto : option Z) : state * list A :=
  match fuel with
  | O => (st, [])
  | S fuel' =>
      match timerId st with
      | None => (st, [])
      | Some d =>
          if match upto with None => true | Some t => (d <=? t)%Z end
          then let '(st1, o1) := timerExpired st d in
               let '(st2, o2) := fireTimers fuel' st1 upto in
               (st2, o1 ++ o2)
          else (st, [])
      end
  end.

(** A sequence of calls at the given times, timers firing in between and
    after the last call. *)
Fixpoint run (fuel : nat) (st : state) (calls : list (Z * A)) : state * list A :=
  match calls with
  | [] => fireTimers fuel st None
  | (t, a) :: rest =>
      let '(st1, o1) := fireTimers fuel st (Some t) in
      let '(st2, o2) := call st1 t a in
      let '(st3, o3) := run fuel st2 rest in
      (st3, o1 ++ o2 ++ o3)
  end.

(** Every call after the first lies in [first, first + wait), in
    nondecreasing time order. *)
Fixpoint inWindow (first prev : Z) (calls : list (Z * A)) : Prop :=
  match calls with
  | [] => True
  | (t, _) :: rest => (prev <= t < first + wait)%Z /\ inWindow first t rest
  end.

(** The most recent argument of a list of calls, [prev] if it is empty. *)
Definition lastValue (prev : option A) (calls : list (Z * A)) : option A :=
  fold_left (fun _ c => Some (snd c)) calls prev.
End Throttle.
Arguments init {A}.
Arguments lastValue {A} prev calls.
Arguments run {A} wait fuel st calls.
Arguments inWindow {A} wait first prev calls.
End Throttle.

(** ** Tag overrides and the rest of [handleDiscovery] *)

(** An entry of [config.tagOverrides]; [None] is an [undefined] field. *)
Record TagOverride := mkTagOverride {
  ov_name : option string;
  ov_measuredPower : option Z;
  ov_batteryMask : option Z
}.

Definition setNameAndPower (t : Tag) (name : string) (mp : Z) : Tag :=
  mkTag (tag_id t) name (tag_rssi t) (tag_peripheral t) mp (tag_isApp t)
        (tag_isIBeacon t) (tag_batteryLevel t).

(** [applyOverrides(tag)]. An [IBeacon]'s [batteryMask] is not a field of
    [Tag] here; it is passed in and returned beside the tag. *)
Definition applyOverrides (tagOverrides : gmap string TagOverride) (tag : Tag)
    (mask : Z) : Tag * Z :=
  match tagOverrides !! tag_id tag with
  | None => (tag, mask)
  | Some o =>
      let name := match ov_name o with Some n => n | None => tag_name tag end in
      let mp := match ov_measuredPower o with Some m => m | None => tag_measuredPower tag end in
      let mask := match ov_batteryMask o with
                  | Some m => if tag_isIBeacon tag then m else mask
                  | None => mask
                  end in
      (setNameAndPower tag name mp, mask)
  end.

(** [tag.rssi = this.filterRssi(tag.id, tag.rssi)], with the smoothed value
    given. *)
Definition setRssi (t : Tag) (rssi : Z) : Tag :=
  mkTag (tag_id t) (tag_name t) rssi (tag_peripheral t) (tag_measuredPower t)
        (tag_isApp t) (tag_isIBeacon t) (tag_batteryLevel t).

(** [seenIds] and the per-tag throttles [tagUpdaters]. *)
Record DiscoveryState := mkDS {
  seenIds : gset string;
  tagUpdaters : gmap string (Throttle.state NewDistanceEvent)
}.

Section Discovery.
Variable toLowerCase : string -> string.
Variable regexMatches : string -> string -> bool.
Variable tagDistance : Z -> Z -> Q.
(** The [batteryLevel] getter of [IBeacon] (not part of this service):
    the level decoded from the peripheral's advertisement with the beacon's
    current [batteryMask]. *)
Variable iBeaconBatteryLevel : Peripheral -> Z -> option Z.

(** An [IBeacon] whose [batteryMask] is [mask]: its [batteryLevel] is read
    through the getter; a plain [Tag] is unchanged. *)
Definition applyBatteryMask (t : Tag) (mask : Z) : Tag :=
  if tag_isIBeacon t
  then mkTag (tag_id t) (tag_name t) (tag_rssi t) (tag_peripheral t)
             (tag_measuredPower t) (tag_isApp t) true
             (iBeaconBatteryLevel (tag_peripheral t) mask)
  else t.

(** [handleDiscovery] after [tag = await this.applyCompanionAppOverride(tag)]:
    [smoothed] is what [filterRssi] returns for this reading, [now] the
    current time in milliseconds. Returns the events the throttled function
    dispatches now (each one goes to [handleNewDistance] and is published on
    the cluster bus). *)
Definition handleDiscoveryTail (cfg : BluetoothLowEnergyConfig)
    (tagOverrides : gmap string TagOverride) (instanceName : string)
    (now smoothed : Z) (ds : DiscoveryState) (tag : Tag)
    : DiscoveryState * list NewDistanceEvent :=
  let ds := mkDS ({[tag_id tag]} ∪ seenIds ds) (tagUpdaters ds) in
  if passesFilter toLowerCase regexMatches cfg (tag_id tag) then
    (* the tag was created with [batteryMask = this.config.batteryMask] *)
    let r := applyOverrides tagOverrides tag (batteryMask cfg) in
    let tag := applyBatteryMask (fst r) (snd r) in
    let tag := setRssi tag smoothed in
    let event := buildEvent tagDistance cfg instanceName tag in
    let updater := match tagUpdaters ds !! tag_id tag with
                   | Some th => th
                   | None => Throttle.init
                   end in
    let '(updater', dispatched) :=
      Throttle.call NewDistanceEvent (updateFrequency cfg * 1000) updater now event in
    (mkDS (seenIds ds) (<[tag_id tag := updater']> (tagUpdaters ds)), dispatched)
  else (ds, []).
End Discovery.

(** ** Concrete inputs used by the examples below *)

(** A connectable Apple device advertising [4c 00 10 ...] (7 bytes). *)
Definition applePeripheral : Peripheral :=
  mkPeripheral "AA:BB:CC" true (Some [76; 0; 16; 5; 1; 2; 3]%Z).

Definition appleTag : Tag :=
  mkTag "AA:BB:CC" "iPhone" (-70) applePeripheral (-59) false false None.

(** The resolver state after the first advertisement of [appleTag]. *)
Definition pendingState : CompanionState :=
  fst (applyCompanionAppOverride_start initialCompanionState appleTag).

(** A configuration with empty lists, default masks, [maxDistance = 5],
    [updateFrequency = 2] and [timeout = 60]; [processIBeacon] is given. *)
Definition sampleConfig (processIBeacon : bool) : BluetoothLowEnergyConfig :=
  mkConfig processIBeacon false 4294901760%Z 65535%Z 0%Z None None None None
           false false false false (5 # 1) 2%Z 60%Z.

(** An iBeacon advertisement: [4c 00 02 15] followed by 21 bytes. *)
Definition iBeaconPeripheral : Peripheral :=
  mkPeripheral "beacon-1" false (Some ([76; 0; 2; 21] ++ repeat 0 21)%Z).

(** [sampleConfig] with ["AA:BB:CC"] on the allowlist. *)
Definition allowConfig : BluetoothLowEnergyConfig :=
  mkConfig true false 4294901760%Z 65535%Z 0%Z (Some ["AA:BB:CC"]) None None None
           false false false false (5 # 1) 2%Z 60%Z.

(** The same decision with the entry under the legacy [whitelist] key. *)
Definition whitelistConfig : BluetoothLowEnergyConfig :=
  mkConfig true false 4294901760%Z 65535%Z 0%Z None (Some ["AA:BB:CC"]) None None
           false false false false (5 # 1) 2%Z 60%Z.

(** * HomeAssistantService

    Shallow embedding of [src/integrations/home-assistant/home-assistant.service.ts]
    (the MQTT bridge that publishes entities, states and attributes). *)

(** ** JavaScript values *)

(** A JavaScript value as the service handles it: configuration objects,
    attribute objects and what is read from them. Objects are lists of
    properties in insertion order. *)
#[warnings="-register-all"]
Inductive JValue :=
| JUndefined
| JNull
| JBool (b : bool)
| JNum (q : Q)
| JStr (s : string)
| JArr (items : list JValue)
| JObj (props : list (string * JValue)).

Definition JObject : Type := list (string * JValue).

(** Reading a property of an object, or [Map.prototype.get]. *)
Fixpoint getKey {A : Type} (o : list (string * A)) (k : string) : option A :=
  match o with
  | [] => None
  | (k', v) :: o' => if String.eqb k k' then Some v else getKey o' k
  end.

(** [o[k]], [undefined] when absent. *)
Definition getProp (o : JObject) (k : string) : JValue :=
  match getKey o k with Some v => v | None => JUndefined end.

(** Assigning a property ([o[k] = v]) or [Map.prototype.set]: an existing
    key keeps its position, a new one is appended. *)
Fixpoint setKey {A : Type} (o : list (string * A)) (k : string) (v : A)
    : list (string * A) :=
  match o with
  | [] => [(k, v)]
  | (k', v') :: o' =>
      if String.eqb k k' then (k, v) :: o' else (k', v') :: setKey o' k v
  end.

(** [Object.assign(target, source)] *)
Definition objectAssign (target source : JObject) : JObject :=
  fold_left (fun acc kv => setKey acc (fst kv) (snd kv)) source target.

(** [_.omit(object, paths)] for paths that are plain keys. *)
Definition omit (o : JObject) (paths : list string) : JObject :=
  List.filter (fun kv => negb (existsb (String.eqb (fst kv)) paths)) o.

(** [_.mapValues(object, f)] *)
Definition mapValues (f : JValue -> JValue) (o : JObject) : JObject :=
  map (fun kv => (fst kv, f (snd kv))) o.

(** [_.mapKeys(object, (v, k) => f(k))]: each property is assigned to the
    new key in order, so a later property wins a collision. *)
Definition mapKeys (f : string -> string) (o : JObject) : JObject :=
  fold_left (fun acc kv => setKey acc (f (fst kv)) (snd kv)) o [].

(** The value step of [deepMap]:
    [_.isObject(v) && !_.isArray(v) ? this.deepMap(v, mapper) : v]. *)
Fixpoint deepMapValue (mapper : JObject -> JObject) (v : JValue) : JValue :=
  match v with
  | JObj o =>
      JObj (mapper (map (fun kv => match kv with (k, w) => (k, deepMapValue mapper w) end) o))
  | _ => v
  end.

(** [deepMap(obj, mapper)] *)
Definition deepMap (mapper : JObject -> JObject) (obj : JObject) : JObject :=
  mapper (mapValues (deepMapValue mapper) obj).

(** [const PROPERTY_BLACKLIST = ['component', 'configTopic']] *)
Definition PROPERTY_BLACKLIST : list string := ["component"%string; "configTopic"%string].

(** [formatMessage(message)], with lodash's [snakeCase] given. *)
Definition formatMessage (snakeCase : string -> string) (message : JObject) : JObject :=
  deepMap (mapKeys snakeCase) (omit message PROPERTY_BLACKLIST).

(** ** lodash debounce with default options *)

(** [_.debounce(func)] as in lodash 4.17: [leading = false],
    [trailing = true], no [maxWait]. The debounced function is called without
    arguments, so [lastArgs] (the array [[]], truthy) is a boolean here. A
    timer is identified with its deadline. *)
Module Debounce.
Section Debounce.
Variable wait : Z.
Local Open Scope Z_scope.

Record state := mkState {
  lastArgs : bool;
  lastCallTime : option Z;
  lastInvokeTime : Z;
  timerId : option Z
}.

Definition init : state := mkState false None 0 None.

Definition shouldInvoke (st : state) (time : Z) : bool :=
  match lastCallTime st with
  | None => true
  | Some lct => (wait <=? time - lct) || (time - lct <? 0)
  end.

Definition remainingWait (st : state) (time : Z) : Z :=
  match lastCallTime st with Some l => wait - (time - l) | None => wait end.

(** [invokeFunc(time)]; the boolean tells that [func] ran. *)
Definition invokeFunc (st : state) (time : Z) : state * bool :=
  (mkState false (lastCallTime st) time (timerId st), true).

(** [leadingEdge(time)]: [leading] is false, [func] does not run. *)
Definition leadingEdge (st : state) (time : Z) : state * bool :=
  (mkState (lastArgs st) (lastCallTime st) time (Some (time + wait)), false).

(** [trailingEdge(time)] *)
Definition trailingEdge (st : state) (time : Z) : state * bool :=
  let st := mkState (lastArgs st) (lastCallTime st) (lastInvokeTime st) None in
  if lastArgs st then invokeFunc st time
  else (mkState false (lastCallTime st) (lastInvokeTime st) None, false).

(** [timerExpired()], run at [time]. *)
Definition timerExpired (st : state) (time : Z) : state * bool :=
  if shouldInvoke st time then trailingEdge st time
  else (mkState (lastArgs st) (lastCallTime st) (lastInvokeTime st)
                (Some (time + remainingWait st time)), false).

(** [debounced()], called at [time]. *)
Definition call (st : state) (time : Z) : state * bool :=
  let isInvoking := shouldInvoke st time in
  let st := mkState true (Some time) (lastInvokeTime st) (timerId st) in
  if isInvoking && match timerId st with None => true | Some _ => false end
  then leadingEdge st time
  else match timerId st with
       | None => (mkState (lastArgs st) (lastCallTime st) (lastInvokeTime st)
                          (Some (time + wait)), false)
       | Some _ => (st, false)
       end.
End Debounce.
End Debounce.

(** ** The service *)

(** An [Entity]: [entity instanceof Sensor] is [isSensor]. *)
Record Entity := mkEntity {
  entity_id : string;
  entity_name : string;
  entity_distributed : bool;
  isSensor : bool
}.

(** [EntityOptions]: its [homeAssistant] object, [None] when [undefined]. *)
Record EntityOptions := mkEntityOptions {
  homeAssistant : option JObject
}.

(** The [state] argument of [handleNewState]: [number | string | boolean]. *)
Inductive StateValue :=
| SNum (q : Q)
| SStr (s : string)
| SBool (b : bool).

(** The payload of an MQTT publish: [JSON.stringify] of an object, a value
    read from a configuration, or [String(state)]. *)
Inductive Payload :=
| PJson (o : JObject)
| PValue (v : JValue)
| PState (s : StateValue).

(** [mqttClient.publish(topic, payload, {retain})]; [retain] defaults to
    false. *)
Record Message := mkMessage {
  msg_topic : JValue;
  msg_payload : Payload;
  msg_retain : bool
}.

(** A value of [debounceFunctions]: the debounced closure created by
    [handleNewAttributes], with what it captured ([config] and the reference
    to the [attributes] object) and lodash's state. *)
Record AttributesPublisher := mkAttributesPublisher {
  ap_config : JObject;
  ap_attributes : nat;
  ap_debounce : Debounce.state
}.

(** The fields of the service; [published] is what went to [mqttClient]. *)
Record HAState := mkHA {
  entityConfigs : list (string * JObject);
  debounceFunctions : list (string * AttributesPublisher);
  device : JValue;
  published : list Message
}.

Definition initialHAState : HAState := mkHA [] [] JUndefined [].

Definition publish (st : HAState) (m : Message) : HAState :=
  mkHA (entityConfigs st) (debounceFunctions st) (device st) (published st ++ [m]).

(** The attribute objects the callers pass, by reference: a heap. *)
Definition Heap := nat -> JObject.

Section HomeAssistant.
(** [this.configService.get('global').instanceName] *)
Variable instanceName : string.
(** lodash's [_.snakeCase] *)
Variable snakeCase : string -> string.
(** [new SensorConfig(uniqueId, name)] *)
Variable SensorConfig : string -> string -> JObject.
(** [new Device(identifier)] *)
Variable newDevice : string -> JObject.

(** [getCombinedId(entityId, distributed)] *)
Definition getCombinedId (entityId : string) (distributed : bool) : string :=
  ((if distributed then "distributed" else instanceName) ++ "_" ++ entityId)%string.

(** The remainder of [onApplicationBootstrap] once [system()] resolved. *)
Definition onApplicationBootstrap_finish (st : HAState)
    (uuid : string) (model manufacturer : JValue) : HAState :=
  let d := newDevice uuid in
  let d := setKey d "name" (JStr instanceName) in
  let d := setKey d "model" model in
  let d := setKey d "manufacturer" manufacturer in
  mkHA (entityConfigs st) (debounceFunctions st) (JObj d) (published st).

(** The hub device of distributed entities. *)
Definition hubDevice : JObject :=
  setKey (newDevice "room-assistant-distributed") "name" (JStr "room-assistant hub").

(** [handleNewEntity(entity, entityOptions)] *)
Definition handleNewEntity (st : HAState) (entity : Entity)
    (entityOptions : option EntityOptions) : HAState :=
  let combinedId := getCombinedId (entity_id entity) (entity_distributed entity) in
  if negb (isSensor entity) then st else
  let config := SensorConfig combinedId (entity_name entity) in
  let config :=
    match entityOptions with
    | Some o =>
        match homeAssistant o with
        | Some h => objectAssign config h
        | None => config
        end
    | None => config
    end in
  let config :=
    if entity_distributed entity then setKey config "device" (JObj hubDevice)
    else setKey config "device" (device st) in
  let st := mkHA (setKey (entityConfigs st) combinedId config)
                 (debounceFunctions st) (device st) (published st) in
  let st := publish st (mkMessage (getProp config "configTopic")
                                  (PJson (formatMessage snakeCase config)) true) in
  publish st (mkMessage (getProp config "availabilityTopic")
                        (PValue (getProp config "payloadAvailable")) false).

(** [handleNewState(id, state, distributed)] *)
Definition handleNewState (st : HAState) (id : string) (state : StateValue)
    (distributed : bool) : HAState :=
  match getKey (entityConfigs st) (getCombinedId id distributed) with
  | None => st
  | Some config => publish st (mkMessage (getProp config "stateTopic") (PState state) false)
  end.

(** The body of the debounced closure, run with the heap of that moment. *)
Definition attributesMessage (heap : Heap) (ap : AttributesPublisher) : Message :=
  mkMessage (getProp (ap_config ap) "jsonAttributesTopic")
            (PJson (formatMessage snakeCase (heap (ap_attributes ap)))) false.

(** Stores a publisher's new lodash state and runs the closure if lodash
    invoked it. *)
Definition updatePublisher (heap : Heap) (st : HAState) (entityId : string)
    (ap : AttributesPublisher) (r : Debounce.state * bool) : HAState :=
  let ap' := mkAttributesPublisher (ap_config ap) (ap_attributes ap) (fst r) in
  let st := mkHA (entityConfigs st) (setKey (debounceFunctions st) entityId ap')
                 (device st) (published st) in
  if snd r then publish st (attributesMessage heap ap') else st.

(** [handleNewAttributes(entityId, attributes, distributed)] at time [now];
    [_.debounce(f)] has [wait = 0]. *)
Definition handleNewAttributes (heap : Heap) (st : HAState) (now : Z)
    (entityId : string) (attributes : nat) (distributed : bool) : HAState :=
  match getKey (entityConfigs st) (getCombinedId entityId distributed) with
  | None => st
  | Some config =>
      match getKey (debounceFunctions st) entityId with
      | Some ap => updatePublisher heap st entityId ap (Debounce.call 0 (ap_debounce ap) now)
      | None =>
          mkHA (entityConfigs st)
               (setKey (debounceFunctions st) entityId
                       (mkAttributesPublisher config attributes Debounce.init))
               (device st) (published st)
      end
  end.

(** The pending timer of the publisher of [entityId] running at [now]. *)
Definition debounceTimerFires (heap : Heap) (st : HAState) (entityId : string)
    (now : Z) : HAState :=
  match getKey (debounceFunctions st) entityId with
  | Some ap =>
      match Debounce.timerId (ap_debounce ap) with
      | Some _ => updatePublisher heap st entityId ap (Debounce.timerExpired 0 (ap_debounce ap) now)
      | None => st
      end
  | None => st
  end.

End HomeAssistant.

(** Sample stand-ins for [SensorConfig] and [Device] and a sample sensor. *)
Definition sampleSensorConfig (uniqueId name : string) : JObject :=
  [("uniqueId"%string, JStr uniqueId); ("name"%string, JStr name);
   ("configTopic"%string, JStr ("homeassistant/sensor/" ++ uniqueId ++ "/config"));
   ("stateTopic"%string, JStr ("room-assistant/sensor/" ++ uniqueId ++ "/state"));
   ("jsonAttributesTopic"%string, JStr ("room-assistant/sensor/" ++ uniqueId ++ "/attributes"));
   ("availabilityTopic"%string, JStr ("room-assistant/sensor/" ++ uniqueId ++ "/status"));
   ("payloadAvailable"%string, JStr "online"); ("payloadNotAvailable"%string, JStr "offline")].

Definition sampleDevice (identifier : string) : JObject :=
  [("identifiers"%string, JStr identifier)].

Definition sampleSensor : Entity := mkEntity "ble-aabbcc" "Phone" false true.

(** * Properties *)

(** ** Resolver: basic facts *)

Lemma remove_one_In (x y : string) (l : list string) :
  In y (remove_one x l) -> In y l.
Proof.
  induction l as [|z l IH]; simpl; [done|].
  destruct (String.eqb_spec x z); simpl; intuition.
Qed.

Lemma remove_one_count_le (x y : string) (l : list string) :
  count_occ String.string_dec (remove_one x l) y <= count_occ String.string_dec l y.
Proof.
  induction l as [|z l IH]; simpl; [done|].
  destruct (String.eqb_spec x z); simpl;
    destruct (String.string_dec z y); lia.
Qed.

Lemma remove_one_count_eq (x : string) (l : list string) :
  In x l -> S (count_occ String.string_dec (remove_one x l) x) = count_occ String.string_dec l x.
Proof.
  induction l as [|z l IH]; simpl; [done|].
  destruct (String.eqb_spec x z) as [->|Hne]; simpl.
  - destruct (String.string_dec z z); [done|congruence].
  - intros [->|Hin]; [congruence|].
    destruct (String.string_dec z x); [congruence|]. auto.
Qed.

Lemma handleAppDiscovery_inflight st tagId appId :
  inflight (handleAppDiscovery st tagId appId) = inflight st.
Proof. unfold handleAppDiscovery. by destruct (negb _). Qed.

Lemma handleAppDiscovery_tags_ne st tagId appId y :
  y ≠ tagId ->
  companionAppTags (handleAppDiscovery st tagId appId) !! y = companionAppTags st !! y.
Proof.
  intros Hne. unfold handleAppDiscovery. destruct (negb _); simpl; [|done].
  by rewrite lookup_insert_ne.
Qed.

Lemma handleAppDiscovery_has st tagId appId y :
  is_Some (companionAppTags st !! y) ->
  is_Some (companionAppTags (handleAppDiscovery st tagId appId) !! y).
Proof.
  intros Hs. destruct (decide (y = tagId)) as [->|Hne].
  - unfold handleAppDiscovery. destruct (negb _); simpl; [|done].
    rewrite lookup_insert_eq. by eexists.
  - by rewrite handleAppDiscovery_tags_ne.
Qed.

Lemma finish_inflight st id res :
  inflight (applyCompanionAppOverride_finish st id res) = remove_one id (inflight st).
Proof.
  unfold applyCompanionAppOverride_finish. destruct res as [appId|msg].
  - by rewrite handleAppDiscovery_inflight.
  - simpl. by destruct (String.eqb _ _).
Qed.

Lemma finish_tags_ne st id res y :
  y ≠ id ->
  companionAppTags (applyCompanionAppOverride_finish st id res) !! y =
  companionAppTags st !! y.
Proof.
  intros Hne. unfold applyCompanionAppOverride_finish. destruct res as [appId|msg].
  - by rewrite handleAppDiscovery_tags_ne.
  - simpl. destruct (String.eqb _ _); simpl; by rewrite lookup_delete_ne.
Qed.

(** Every suspended call holds a cache entry for its identity, and no two
    suspended calls share an identity. *)
Definition inflight_inv (st : CompanionState) : Prop :=
  forall id, count_occ String.string_dec (inflight st) id <= 1 /\
             (In id (inflight st) -> is_Some (companionAppTags st !! id)).

Lemma inflight_inv_initial : inflight_inv initialCompanionState.
Proof. intros id. simpl. split; [lia|done]. Qed.

Lemma inflight_inv_step st st' :
  inflight_inv st -> companion_step st st' -> inflight_inv st'.
Proof.
  intros Hinv Hstep. destruct Hstep as [st tag|st tag c r Hin|st pid appId|st d id Hin].
  - unfold applyCompanionAppOverride_start.
    destruct (companionGate _); simpl; [|exact Hinv].
    destruct (mapHas _ _) eqn:Hhas; simpl; [exact Hinv|].
    destruct (bool_decide _); simpl; [exact Hinv|].
    unfold mapHas in Hhas.
    destruct (companionAppTags st !! tag_id tag) eqn:Hlk; [done|].
    assert (Hnot : ~ In (tag_id tag) (inflight st)).
    { intros Hi. destruct (proj2 (Hinv _) Hi) as [? Hs]. congruence. }
    intros y. destruct (String.string_dec (tag_id tag) y) as [<-|Hne].
    + split.
      * apply (count_occ_not_In String.string_dec) in Hnot. simpl.
        destruct (String.string_dec _ _); [lia|congruence].
      * intros _. simpl. rewrite lookup_insert_eq. by eexists.
    + split.
      * simpl. destruct (String.string_dec _ _); [congruence|apply Hinv].
      * intros [Heq|Hi]; [congruence|].
        simpl. rewrite lookup_insert_ne by congruence. by apply Hinv.
  - unfold applyCompanionAppOverride_resume; simpl.
    set (id := tag_id tag) in *.
    intros y. rewrite finish_inflight. split.
    + pose proof (remove_one_count_le id y (inflight st)).
      pose proof (proj1 (Hinv y)). lia.
    + intros Hy. destruct (String.string_dec y id) as [->|Hne].
      * exfalso. pose proof (remove_one_count_eq id (inflight st) Hin).
        pose proof (proj1 (Hinv id)).
        apply (count_occ_In String.string_dec) in Hy. lia.
      * rewrite finish_tags_ne by done.
        apply Hinv. by eapply remove_one_In.
  - intros y. rewrite handleAppDiscovery_inflight. split; [apply Hinv|].
    intros Hi. apply handleAppDiscovery_has. by apply Hinv.
  - intros y. apply Hinv.
Qed.

Lemma inflight_inv_reachable st :
  rtc companion_step initialCompanionState st -> inflight_inv st.
Proof.
  intros Hr. remember initialCompanionState as s0 eqn:Hs0.
  assert (inflight_inv s0) by (subst; apply inflight_inv_initial).
  clear Hs0. induction Hr; eauto using inflight_inv_step.
Qed.

(** ** Resolver: claims *)

(** C9: under any interleaving of discovery callbacks, resumptions of
    suspended handshakes, [isApp] events and denylist timers, starting from
    the empty resolver state, at most one handshake per transport identity
    is suspended at any time. *)
Theorem at_most_one_handshake (st : CompanionState) :
  rtc companion_step initialCompanionState st ->
  forall id, count_occ String.string_dec (inflight st) id <= 1.
Proof. intros Hr id. apply (inflight_inv_reachable st Hr). Qed.

Lemma at_most_one_handshake_witness :
  count_occ String.string_dec
    (inflight (fst (applyCompanionAppOverride_start pendingState appleTag)))
    "AA:BB:CC" <= 1.
Proof.
  apply at_most_one_handshake.
  eapply rtc_l; [apply step_discovery|].
  apply rtc_once, step_discovery.
Defined.

(** C6: [handleAppDiscovery] leaves the state unchanged when the cache maps
    [tagId] to a non-null identity and the new [appId] is null; a resolved
    mapping is never downgraded to null. *)
Theorem handleAppDiscovery_no_downgrade (st : CompanionState) (tagId oldId : string)
    (appId : option string) :
  companionAppTags st !! tagId = Some (Some oldId) ->
  appId = None ->
  handleAppDiscovery st tagId appId = st.
Proof.
  intros Hold ->. unfold handleAppDiscovery. by rewrite Hold.
Qed.

Lemma handleAppDiscovery_no_downgrade_witness :
  handleAppDiscovery (handleAppDiscovery initialCompanionState "AA:BB:CC" (Some "app-1"))
    "AA:BB:CC" None
  = handleAppDiscovery initialCompanionState "AA:BB:CC" (Some "app-1").
Proof.
  apply (handleAppDiscovery_no_downgrade _ _ "app-1").
  - vm_compute. reflexivity.
  - reflexivity.
Defined.

(** C7: a handshake is started only for a connectable peripheral whose
    manufacturer data starts with [4c 00 10] and is longer than 6 bytes, and
    whose identity is neither cached nor denylisted; when the identity is
    cached (resolved or pending) or denylisted, nothing is started, the state
    is unchanged, and the returned tag takes a cached non-null identity and
    is marked as an app identity. *)
Theorem companion_handshake_gate (st : CompanionState) (tag : Tag) :
  (snd (applyCompanionAppOverride_start st tag) = true ->
     connectable (tag_peripheral tag) = true /\
     (exists md, manufacturerData (tag_peripheral tag) = Some md /\
                 firstn 3 md = APPLE_ADVERTISEMENT_ID /\ 6 < length md) /\
     companionAppTags st !! tag_id tag = None /\
     tag_id tag ∉ companionAppDenylist st) /\
  (is_Some (companionAppTags st !! tag_id tag) \/ tag_id tag ∈ companionAppDenylist st ->
     exists tag', applyCompanionAppOverride_sync st tag = (st, Some tag') /\
       (forall appId, companionAppTags st !! tag_id tag = Some (Some appId) ->
                      tag_id tag' = appId /\ tag_isApp tag' = true) /\
       (isNonNull (companionAppTags st !! tag_id tag) = false -> tag' = tag)).
Proof.
  split.
  - intros H. unfold applyCompanionAppOverride_start in H. cbv zeta in H.
    destruct (companionGate (tag_peripheral tag)) eqn:Hg; [|discriminate H].
    unfold mapHas in H.
    destruct (companionAppTags st !! tag_id tag) eqn:Hlk; simpl in H;
      [discriminate H|].
    destruct (bool_decide (tag_id tag ∈ companionAppDenylist st)) eqn:Hd;
      simpl in H; [discriminate H|].
    apply bool_decide_eq_false in Hd.
    unfold companionGate in Hg. apply andb_true_iff in Hg as [Hc Hg].
    destruct (manufacturerData _) as [md|] eqn:Hmd; [|discriminate Hg].
    apply andb_true_iff in Hg as [Hpre Hlen].
    apply bool_decide_eq_true in Hpre. apply Z.ltb_lt in Hlen.
    repeat split; auto. exists md. repeat split; auto. lia.
  - intros Hcached.
    assert (Hstart : applyCompanionAppOverride_start st tag = (st, false)).
    { unfold applyCompanionAppOverride_start.
      destruct (companionGate _); [|done].
      destruct Hcached as [[v Hv]|Hd].
      - unfold mapHas. by rewrite Hv.
      - rewrite (bool_decide_eq_true_2 _ Hd). by rewrite andb_false_r. }
    unfold applyCompanionAppOverride_sync. rewrite Hstart.
    eexists. split; [reflexivity|]. unfold applyCachedAppId, isNonNull. split.
    + intros appId ->. done.
    + destruct (companionAppTags st !! tag_id tag) as [[a|]|]; done.
Qed.

Lemma handleAppDiscovery_denylist_subseteq st tagId appId :
  companionAppDenylist (handleAppDiscovery st tagId appId) ⊆ companionAppDenylist st.
Proof. unfold handleAppDiscovery. destruct (negb _); simpl; set_solver. Qed.

Lemma handleAppDiscovery_timers st tagId appId :
  denylistTimers (handleAppDiscovery st tagId appId) = denylistTimers st.
Proof. unfold handleAppDiscovery. by destruct (negb _). Qed.

(** A cache entry (pending or resolved) whose identity has no suspended
    handshake keeps an entry, and gets no suspended handshake, in one step. *)
Lemma entry_kept_step (st st' : CompanionState) (id : string) :
  companion_step st st' ->
  is_Some (companionAppTags st !! id) -> ~ In id (inflight st) ->
  is_Some (companionAppTags st' !! id) /\ ~ In id (inflight st').
Proof.
  intros Hstep Hs Hnot. destruct Hstep as [st tag|st tag c r Hin|st pid appId|st d x Hin].
  - unfold applyCompanionAppOverride_start. cbv zeta.
    destruct (companionGate _); simpl; [|eauto].
    destruct (mapHas _ (tag_id tag)) eqn:Hhas; simpl; [eauto|].
    destruct (bool_decide _); simpl; [eauto|].
    assert (Hne : tag_id tag ≠ id).
    { intros <-. unfold mapHas in Hhas. destruct Hs as [? Hv]. by rewrite Hv in Hhas. }
    split.
    + by rewrite lookup_insert_ne.
    + intros [Heq|Hi]; [congruence|done].
  - unfold applyCompanionAppOverride_resume. simpl.
    assert (Hne : id ≠ tag_id tag) by (intros ->; done).
    rewrite finish_tags_ne, finish_inflight by done. split; [done|].
    intros Hi. apply Hnot. by eapply remove_one_In.
  - rewrite handleAppDiscovery_inflight. split; [|done].
    by apply handleAppDiscovery_has.
  - simpl. eauto.
Qed.

Lemma entry_kept_rtc (st st' : CompanionState) (id : string) :
  rtc companion_step st st' ->
  is_Some (companionAppTags st !! id) -> ~ In id (inflight st) ->
  is_Some (companionAppTags st' !! id) /\ ~ In id (inflight st').
Proof.
  induction 1 as [s|s1 s2 s3 H12 H23 IH]; [done|].
  intros Hs Hnot. destruct (entry_kept_step s1 s2 id H12 Hs Hnot). by apply IH.
Qed.

(** A suspended handshake of a reachable state that resumes with a result
    (no rejection) leaves an entry for its identity and no other suspended
    handshake for it. *)
Lemma resume_resolved_kept (st : CompanionState) (tag : Tag) c r a :
  rtc companion_step initialCompanionState st ->
  In (tag_id tag) (inflight st) ->
  discoverCompanionAppId c r = Resolved a ->
  let st1 := fst (applyCompanionAppOverride_resume st tag c r) in
  is_Some (companionAppTags st1 !! tag_id tag) /\ ~ In (tag_id tag) (inflight st1).
Proof.
  intros Hr Hin Hres. cbv zeta.
  destruct (inflight_inv_reachable st Hr (tag_id tag)) as [Hcount Hsome].
  unfold applyCompanionAppOverride_resume. cbn [fst]. split.
  - unfold applyCompanionAppOverride_finish. rewrite Hres.
    apply handleAppDiscovery_has. simpl. by apply Hsome.
  - rewrite finish_inflight. intros Hi.
    pose proof (remove_one_count_eq (tag_id tag) (inflight st) Hin).
    apply (count_occ_In String.string_dec) in Hi. lia.
Qed.

Lemma cached_no_start (st : CompanionState) (tag : Tag) :
  is_Some (companionAppTags st !! tag_id tag) ->
  applyCompanionAppOverride_start st tag = (st, false).
Proof.
  intros [v Hv]. unfold applyCompanionAppOverride_start. cbv zeta.
  destruct (companionGate _); [|done]. unfold mapHas. by rewrite Hv.
Qed.

(** C1 (as the code behaves): a timeout of the 15-second race is caught
    inside [discoverCompanionAppId] and becomes a null result: no denylist
    entry, no timer, and the pending entry stays null. Only a rejection of
    [discoverCompanionAppId] itself (the connect step) with the message
    ["timed out"] denylists the identity, schedules its removal after three
    minutes and deletes the cache entry; once that removal runs, the next
    qualifying advertisement starts a new attempt. Any other rejection deletes
    the entry without denylisting, and no other outcome denylists. After a
    read-race timeout of a suspended handshake (from any state reachable
    from the initial one), no later advertisement of that identity starts a
    new attempt, whatever interleaving follows. *)
Theorem companion_timeout_handling (st : CompanionState) (id : string) :
  (let st' := applyCompanionAppOverride_finish st id
                (discoverCompanionAppId ConnectResolved HandshakeTimedOut) in
   companionAppDenylist st' ⊆ companionAppDenylist st /\
   denylistTimers st' = denylistTimers st /\
   (companionAppTags st !! id = Some None -> companionAppTags st' !! id = Some None)) /\
  (forall m r,
   let st' := applyCompanionAppOverride_finish st id
                (discoverCompanionAppId (ConnectRejected m) r) in
   companionAppTags st' !! id = None /\
   (m = "timed out"%string ->
      id ∈ companionAppDenylist st' /\
      denylistTimers st' = (DENYLIST_COOLDOWN, id) :: denylistTimers st /\
      DENYLIST_COOLDOWN = (3 * 60 * 1000)%Z /\
      forall tag, tag_id tag = id -> companionGate (tag_peripheral tag) = true ->
        snd (applyCompanionAppOverride_start
               (denylistTimerFires st' DENYLIST_COOLDOWN id) tag) = true) /\
   (m <> "timed out"%string ->
      companionAppDenylist st' = companionAppDenylist st /\
      denylistTimers st' = denylistTimers st)) /\
  (forall c r x,
   x ∈ companionAppDenylist (applyCompanionAppOverride_finish st id
                               (discoverCompanionAppId c r)) ->
   x ∈ companionAppDenylist st \/ (x = id /\ c = ConnectRejected "timed out"%string)) /\
  (forall st0 tag,
   rtc companion_step initialCompanionState st0 ->
   In (tag_id tag) (inflight st0) ->
   forall st2,
   rtc companion_step (fst (applyCompanionAppOverride_resume st0 tag ConnectResolved
                                                            HandshakeTimedOut)) st2 ->
   forall tag', tag_id tag' = tag_id tag ->
   snd (applyCompanionAppOverride_start st2 tag') = false).
Proof.
  split; [|split; [|split]].
  - simpl. unfold applyCompanionAppOverride_finish.
    rewrite handleAppDiscovery_timers. split; [|split].
    + etrans; [apply handleAppDiscovery_denylist_subseteq|]. done.
    + done.
    + intros Hp. unfold handleAppDiscovery. simpl. rewrite Hp. simpl.
      by rewrite lookup_insert_eq.
  - intros m r. simpl. unfold applyCompanionAppOverride_finish.
    destruct (String.eqb_spec m "timed out") as [->|Hne]; simpl.
    + split; [by rewrite lookup_delete_eq|]. split; [|intros []; done].
      intros _. split; [set_solver|]. split; [done|]. split; [done|].
      intros tag <- Hg. unfold applyCompanionAppOverride_start, denylistTimerFires.
      simpl. rewrite Hg. unfold mapHas. simpl. rewrite lookup_delete_eq. simpl.
      rewrite bool_decide_eq_false_2; [done|]. set_solver.
    + split; [by rewrite lookup_delete_eq|]. split; [done|]. intros _. done.
  - intros c r x Hx. destruct c as [|m]; simpl in Hx.
    + left. unfold applyCompanionAppOverride_finish in Hx.
      destruct (promiseWithTimeout_race r);
        apply handleAppDiscovery_denylist_subseteq in Hx; exact Hx.
    + unfold applyCompanionAppOverride_finish in Hx.
      destruct (String.eqb_spec m "timed out") as [->|Hne]; simpl in Hx.
      * apply elem_of_union in Hx as [Hx|Hx]; [|by left].
        apply elem_of_singleton in Hx. by right.
      * by left.
  - intros st0 tag Hr Hin st2 H2 tag' Hid.
    destruct (resume_resolved_kept st0 tag ConnectResolved HandshakeTimedOut None Hr Hin
                eq_refl) as [Hs Hnot].
    destruct (entry_kept_rtc _ _ _ H2 Hs Hnot) as [Hs2 _].
    rewrite cached_no_start; [done|]. by rewrite Hid.
Qed.

(** C1 fails as stated: after the 15-second handshake timeout the identity is
    not denylisted, its cache entry stays null, and the next advertisement
    starts no new attempt. *)
Lemma handshake_timeout_not_denylisted :
  let st := applyCompanionAppOverride_finish pendingState "AA:BB:CC"
              (discoverCompanionAppId ConnectResolved HandshakeTimedOut) in
  bool_decide ("AA:BB:CC"%string ∈ companionAppDenylist st) = false /\
  companionAppTags st !! "AA:BB:CC"%string = Some None /\
  snd (applyCompanionAppOverride_start st appleTag) = false.
Proof. vm_compute. split; [reflexivity|split; reflexivity]. Qed.

(** A non-null cache entry whose identity has no suspended handshake stays
    non-null, and no handshake for it starts, in one step. *)
Lemma resolved_entry_step (st st' : CompanionState) (id : string) :
  companion_step st st' ->
  (exists v, companionAppTags st !! id = Some (Some v)) ->
  ~ In id (inflight st) ->
  (exists v, companionAppTags st' !! id = Some (Some v)) /\ ~ In id (inflight st').
Proof.
  intros Hstep [v Hv] Hnot. destruct Hstep as [st tag|st tag c r Hin|st pid appId|st d x Hin].
  - unfold applyCompanionAppOverride_start. cbv zeta.
    destruct (companionGate _); simpl; [|eauto].
    destruct (mapHas _ (tag_id tag)) eqn:Hhas; simpl; [eauto|].
    destruct (bool_decide _); simpl; [eauto|].
    assert (Hne : tag_id tag ≠ id).
    { intros <-. unfold mapHas in Hhas. by rewrite Hv in Hhas. }
    split.
    + exists v. by rewrite lookup_insert_ne.
    + intros [Heq|Hi]; [congruence|done].
  - unfold applyCompanionAppOverride_resume. simpl.
    assert (Hne : id ≠ tag_id tag) by (intros ->; done).
    rewrite finish_tags_ne, finish_inflight by done. split; [eauto|].
    intros Hi. apply Hnot. by eapply remove_one_In.
  - rewrite handleAppDiscovery_inflight. split; [|done].
    destruct (decide (id = pid)) as [->|Hne].
    + exists appId. unfold handleAppDiscovery. rewrite Hv. simpl.
      by rewrite lookup_insert_eq.
    + rewrite handleAppDiscovery_tags_ne by done. eauto.
  - simpl. eauto.
Qed.

Lemma resolved_entry_rtc (st st' : CompanionState) (id : string) :
  rtc companion_step st st' ->
  (exists v, companionAppTags st !! id = Some (Some v)) ->
  ~ In id (inflight st) ->
  exists v, companionAppTags st' !! id = Some (Some v).
Proof.
  induction 1 as [s|s1 s2 s3 H12 H23 IH]; [done|].
  intros Hv Hnot. destruct (resolved_entry_step s1 s2 id H12 Hv Hnot). by apply IH.
Qed.

(** C2 (as the code behaves): the entry is created as pending (null) by a
    qualifying advertisement for an identity neither cached nor denylisted;
    it is deleted whenever [discoverCompanionAppId] rejects (the connect step
    fails); a failed or timed-out read or a peer disconnect is caught and
    leaves the entry null and, from a reachable state, the entry is never
    removed afterwards and no later advertisement starts a new attempt;
    an entry holding a non-null identity, with no handshake for that identity
    in flight, holds a non-null identity in every later state. *)
Theorem companion_cache_lifecycle :
  (forall st tag,
     companionGate (tag_peripheral tag) = true ->
     companionAppTags st !! tag_id tag = None ->
     tag_id tag ∉ companionAppDenylist st ->
     snd (applyCompanionAppOverride_start st tag) = true /\
     companionAppTags (fst (applyCompanionAppOverride_start st tag)) !! tag_id tag
       = Some None) /\
  (forall st id m r,
     companionAppTags (applyCompanionAppOverride_finish st id
                         (discoverCompanionAppId (ConnectRejected m) r)) !! id = None) /\
  (forall st tag r,
     rtc companion_step initialCompanionState st ->
     In (tag_id tag) (inflight st) ->
     companionAppTags st !! tag_id tag = Some None ->
     (forall v, r <> ReadResolved (Some v)) ->
     let st' := fst (applyCompanionAppOverride_resume st tag ConnectResolved r) in
     companionAppTags st' !! tag_id tag = Some None /\
     forall st2, rtc companion_step st' st2 ->
       is_Some (companionAppTags st2 !! tag_id tag) /\
       forall tag', tag_id tag' = tag_id tag ->
         snd (applyCompanionAppOverride_start st2 tag') = false) /\
  (forall st st' id,
     rtc companion_step st st' ->
     (exists v, companionAppTags st !! id = Some (Some v)) ->
     ~ In id (inflight st) ->
     exists v, companionAppTags st' !! id = Some (Some v)).
Proof.
  split; [|split; [|split]].
  - intros st tag Hg Hnone Hnd. unfold applyCompanionAppOverride_start. cbv zeta.
    rewrite Hg. unfold mapHas. rewrite Hnone.
    rewrite bool_decide_eq_false_2 by done. simpl.
    split; [done|]. by rewrite lookup_insert_eq.
  - intros st id m r. unfold applyCompanionAppOverride_finish. simpl.
    destruct (String.eqb m _); simpl; by rewrite lookup_delete_eq.
  - intros st tag r Hreach Hin Hp Hr st'.
    assert (Hd : discoverCompanionAppId ConnectResolved r = Resolved None).
    { destruct r as [[v|]| | |]; simpl; try done. by destruct (Hr v). }
    assert (Htags : companionAppTags st' !! tag_id tag = Some None).
    { subst st'. unfold applyCompanionAppOverride_resume, applyCompanionAppOverride_finish.
      cbn [fst]. rewrite Hd. unfold handleAppDiscovery. simpl. rewrite Hp. simpl.
      by rewrite lookup_insert_eq. }
    split; [done|]. intros st2 H2.
    destruct (resume_resolved_kept st tag ConnectResolved r None Hreach Hin Hd) as [Hs Hnot].
    destruct (entry_kept_rtc _ _ _ H2 Hs Hnot) as [Hs2 _].
    split; [done|]. intros tag' Hid.
    rewrite cached_no_start; [done|]. by rewrite Hid.
  - intros st st' id Hr. induction Hr as [s|s1 s2 s3 H12 H23 IH]; [done|].
    intros Hv Hnot. destruct (resolved_entry_step s1 s2 id H12 Hv Hnot).
    by apply IH.
Qed.

(** C2 fails as stated: a failed characteristic read is not followed by the
    removal of the pending entry, and the next advertisement starts no new
    attempt. *)
Lemma read_failure_keeps_pending_entry :
  let st := applyCompanionAppOverride_finish pendingState "AA:BB:CC"
              (discoverCompanionAppId ConnectResolved (ReadRejected "read failed")) in
  companionAppTags st !! "AA:BB:CC"%string = Some None /\
  snd (applyCompanionAppOverride_start st appleTag) = false.
Proof. vm_compute. split; reflexivity. Qed.

(** ** Classification *)

(** C5 (as the code behaves): [createTag] yields an [IBeacon] exactly when
    [processIBeacon] is enabled and the manufacturer buffer is present, at
    least 25 bytes long, reads [0x004c] as a little-endian 16-bit value at
    offset 0, [0x02] at offset 2 and [0x15] at offset 3; otherwise a [Tag].
    With [processIBeacon] disabled every advertisement yields a [Tag]. *)
Theorem createTag_classification (cfg : BluetoothLowEnergyConfig) (p : Peripheral) :
  (isIBeaconInstance (createTag cfg p) = true <->
   processIBeacon cfg = true /\
   exists b, manufacturerData p = Some b /\ (25 <= length b)%nat /\
             readUInt16LE b 0 = 76%Z /\ readUInt8 b 2 = 2%Z /\ readUInt8 b 3 = 21%Z) /\
  (processIBeacon cfg = false -> createTag cfg p = NewTag p).
Proof.
  unfold createTag, isIBeacon. split.
  - destruct (processIBeacon cfg); simpl; [|split; [done|intros [[=] _]]].
    destruct (manufacturerData p) as [b|]; simpl.
    + destruct ((25 <=? Z.of_nat (length b)) && (readUInt16LE b 0 =? 76) &&
                (readUInt8 b 2 =? 2) && (readUInt8 b 3 =? 21))%Z%bool eqn:E; simpl.
      * rewrite !andb_true_iff, Z.leb_le, !Z.eqb_eq in E.
        destruct E as [[[H1 H2] H3] H4].
        split; [|done]. intros _. split; [done|]. exists b. split; [done|]. lia.
      * split; [done|]. intros [_ [b' [[= <-] [H1 [H2 [H3 H4]]]]]].
        rewrite (proj2 (Z.leb_le 25 _)), (proj2 (Z.eqb_eq _ _) H2),
          (proj2 (Z.eqb_eq _ _) H3), (proj2 (Z.eqb_eq _ _) H4) in E by lia.
        discriminate E.
    + split; [done|]. intros [_ [b [[=] _]]].
  - intros ->. done.
Qed.

(** C5 fails as stated: with [processIBeacon] disabled a well-formed iBeacon
    buffer yields a generic [Tag]. *)
Lemma iBeacon_without_processIBeacon_is_tag :
  isIBeacon (manufacturerData iBeaconPeripheral) = true /\
  createTag (sampleConfig false) iBeaconPeripheral = NewTag iBeaconPeripheral.
Proof. split; reflexivity. Qed.

(** ** Allow/deny filter *)

Lemma isOnAllowlist_enabled toLowerCase regexMatches cfg id :
  isOnAllowlist toLowerCase regexMatches cfg id = true -> isAllowlistEnabled cfg = true.
Proof.
  unfold isOnAllowlist, isAllowlistEnabled, isOnList, nonEmpty, orEmpty.
  destruct (allowlist cfg) as [[|a l]|], (whitelist cfg) as [[|w l']|];
    simpl; done.
Qed.

(** C3: a device passes iff (it is on a non-empty allowlist, or the
    allowlist is empty and the denylist is not) and it is not on the
    denylist; with both lists empty nothing passes; a device on both a
    non-empty allowlist and a non-empty denylist is excluded; without the
    regex flags, list membership is exact equality after [toLowerCase]. *)
Theorem allow_deny_decision (toLowerCase : string -> string)
    (regexMatches : string -> string -> bool) (cfg : BluetoothLowEnergyConfig)
    (id : string) :
  (passesFilter toLowerCase regexMatches cfg id = true <->
   ((isAllowlistEnabled cfg = true /\ isOnAllowlist toLowerCase regexMatches cfg id = true) \/
    (isAllowlistEnabled cfg = false /\ isDenylistEnabled cfg = true)) /\
   isOnDenylist toLowerCase regexMatches cfg id = false) /\
  (isAllowlistEnabled cfg = false -> isDenylistEnabled cfg = false ->
   passesFilter toLowerCase regexMatches cfg id = false) /\
  (isOnAllowlist toLowerCase regexMatches cfg id = true ->
   isOnDenylist toLowerCase regexMatches cfg id = true ->
   passesFilter toLowerCase regexMatches cfg id = false) /\
  (allowlistRegex cfg = false -> whitelistRegex cfg = false ->
   (isOnAllowlist toLowerCase regexMatches cfg id = true <->
    exists x, In x (orEmpty (allowlist cfg) ++ orEmpty (whitelist cfg)) /\
              toLowerCase x = toLowerCase id)) /\
  (denylistRegex cfg = false -> blacklistRegex cfg = false ->
   (isOnDenylist toLowerCase regexMatches cfg id = true <->
    exists x, In x (orEmpty (denylist cfg) ++ orEmpty (blacklist cfg)) /\
              toLowerCase x = toLowerCase id)).
Proof.
  assert (Hlit : forall l, isOnList toLowerCase regexMatches l false id = true <->
                 exists x, In x l /\ toLowerCase x = toLowerCase id).
  { intros l. unfold isOnList. destruct l as [|a l].
    - split; [done|]. intros [x [[] _]].
    - rewrite existsb_exists. split.
      + intros [y [Hy Heq]]. apply String.eqb_eq in Heq.
        apply in_map_iff in Hy as [x [<- Hx]]. eauto.
      + intros [x [Hx Heq]]. exists (toLowerCase x). split.
        * by apply in_map.
        * by apply String.eqb_eq. }
  pose proof (isOnAllowlist_enabled toLowerCase regexMatches cfg id) as Hen.
  unfold passesFilter. split; [|split; [|split; [|split]]].
  - destruct (isOnAllowlist _ _ cfg id), (isAllowlistEnabled cfg),
      (isDenylistEnabled cfg), (isOnDenylist _ _ cfg id); simpl;
      intuition (try discriminate; auto).
  - intros Ha Hd. rewrite Ha, Hd.
    destruct (isOnAllowlist _ _ cfg id) eqn:Hon; [|done].
    specialize (Hen eq_refl). congruence.
  - intros _ ->. by rewrite andb_false_r.
  - intros Ha Hw. unfold isOnAllowlist. rewrite Ha, Hw. apply Hlit.
  - intros Ha Hw. unfold isOnDenylist. rewrite Ha, Hw. apply Hlit.
Qed.

(** ** Event construction *)

(** C10: the event's [outOfRange] flag is set iff its distance is strictly
    greater than [maxDistance]; a distance equal to [maxDistance] is in
    range. *)
Theorem outOfRange_iff_beyond_max (tagDistance : Z -> Z -> Q)
    (cfg : BluetoothLowEnergyConfig) (instanceName : string) (tag : Tag) :
  let ev := buildEvent tagDistance cfg instanceName tag in
  (ev_outOfRange ev = true <-> (maxDistance cfg < ev_distance ev)%Q) /\
  ((ev_distance ev == maxDistance cfg)%Q -> ev_outOfRange ev = false).
Proof.
  simpl. unfold Qgtb. split.
  - rewrite Qgt_alt. destruct (_ ?= _)%Q; split; congruence.
  - rewrite Qeq_alt. intros ->. done.
Qed.

(** ** Sensor creation *)

(** C8: for an event whose sensor id is not yet registered,
    [handleNewDistance] first registers a device tracker, a battery sensor
    exactly when the event carries a battery level, and the room presence
    sensor, and only then hands the measurement to the sensor; for a
    registered sensor only the measurement happens. *)
Theorem handleNewDistance_creates_before_measuring (makeId : string -> string)
    (cfg : BluetoothLowEnergyConfig) (cs : CompanionState) (es : EntityState)
    (ev : NewDistanceEvent) :
  let sensorId := makeId ("ble " +:+ ev_tagId ev) in
  let es' := snd (handleNewDistance makeId cfg cs es ev) in
  let measure := HandleNewMeasurement sensorId (ev_instanceName ev) (ev_rssi ev)
                   (ev_measuredPower ev) (ev_distance ev) (ev_outOfRange ev)
                   (ev_batteryLevel ev) in
  (~ In sensorId (entityIds es) ->
   exists created,
     entityLog es' = entityLog es ++ created ++ [measure] /\
     (exists name, In (AddRoomPresenceSensor sensorId name (timeout cfg)) created) /\
     (exists id name, In (AddDeviceTracker id name) created) /\
     ((exists id name, In (AddBatterySensor id name) created) <->
      ev_batteryLevel ev <> None) /\
     In sensorId (entityIds es')) /\
  (In sensorId (entityIds es) ->
   entityLog es' = entityLog es ++ [measure] /\ entityIds es' = entityIds es).
Proof.
  intros sensorId es' measure. subst es'.
  unfold handleNewDistance. fold sensorId. cbn [snd].
  split.
  - intros Hnot. rewrite bool_decide_eq_false_2
      by (intros Hin; apply Hnot; by apply list_elem_of_In).
    unfold createRoomPresenceSensor, addEntity. cbn [entityLog entityIds].
    destruct (ev_batteryLevel ev) as [lvl|] eqn:Hb; cbn [entityLog entityIds].
    + exists [AddDeviceTracker (makeId (sensorId +:+ "-tracker"))
                (ev_tagName ev +:+ " Tracker");
              AddBatterySensor (makeId (sensorId +:+ "-battery"))
                (ev_tagName ev +:+ " Battery");
              AddRoomPresenceSensor sensorId (ev_tagName ev +:+ " Room Presence")
                (timeout cfg);
              AddTimeoutInterval (sensorId +:+ "_timeout_check") (timeout cfg * 1000)].
      split; [by rewrite <- !app_assoc|].
      split; [eexists; cbn [In]; right; right; left; reflexivity|].
      split; [do 2 eexists; cbn [In]; left; reflexivity|].
      split; [split; [done|intros _; do 2 eexists; cbn [In]; right; left; reflexivity]|].
      rewrite <- !app_assoc. apply in_or_app. right. cbn [In app]. tauto.
    + exists [AddDeviceTracker (makeId (sensorId +:+ "-tracker"))
                (ev_tagName ev +:+ " Tracker");
              AddRoomPresenceSensor sensorId (ev_tagName ev +:+ " Room Presence")
                (timeout cfg);
              AddTimeoutInterval (sensorId +:+ "_timeout_check") (timeout cfg * 1000)].
      split; [by rewrite <- !app_assoc|].
      split; [eexists; cbn [In]; right; left; reflexivity|].
      split; [do 2 eexists; cbn [In]; left; reflexivity|].
      split; [split; [|done]|].
      * intros [i [n Hin]]. cbn [In] in Hin.
        destruct Hin as [H|[H|[H|[]]]]; discriminate H.
      * rewrite <- !app_assoc. apply in_or_app. right. cbn [In app]. tauto.
  - intros Hin. rewrite bool_decide_eq_true_2 by (by apply list_elem_of_In).
    done.
Qed.

(** ** Throttled dispatch *)

Lemma throttle_run_in_window {A} (wait : Z) (fuel : nat) (t0 prev : Z)
    (pending : option A) (rest : list (Z * A)) :
  (0 < wait)%Z -> (1 <= fuel)%nat -> (t0 <= prev)%Z ->
  Throttle.inWindow wait t0 prev rest ->
  snd (Throttle.run wait fuel
         (Throttle.mkState A pending (Some prev) t0 (Some (t0 + wait)%Z)) rest) =
  match Throttle.lastValue pending rest with Some a => [a] | None => [] end.
Proof.
  intros Hw Hf. revert prev pending.
  induction rest as [|[t a] rest IH]; intros prev pending Hp Hwin; simpl.
  - destruct fuel as [|fuel]; [lia|]. simpl.
    unfold Throttle.timerExpired, Throttle.shouldInvoke. simpl.
    replace (wait <=? t0 + wait - t0)%Z with true
      by (symmetry; apply Z.leb_le; lia).
    rewrite !orb_true_r. unfold Throttle.trailingEdge. simpl.
    destruct pending as [a|]; simpl.
    + destruct fuel; reflexivity.
    + destruct fuel; reflexivity.
  - destruct Hwin as [[Hpt Ht] Hwin].
    destruct fuel as [|fuel]; [lia|]. simpl.
    replace (t0 + wait <=? t)%Z with false by (symmetry; apply Z.leb_gt; lia).
    unfold Throttle.call, Throttle.shouldInvoke. simpl.
    replace (wait <=? t - prev)%Z with false by (symmetry; apply Z.leb_gt; lia).
    replace (t - prev <? 0)%Z with false by (symmetry; apply Z.ltb_ge; lia).
    replace (wait <=? t - t0)%Z with false by (symmetry; apply Z.leb_gt; lia).
    simpl.
    destruct (Throttle.run wait (S fuel) _ rest) as [st3 o3] eqn:Hrun.
    simpl. specialize (IH t (Some a) ltac:(lia) Hwin).
    rewrite Hrun in IH. exact IH.
Qed.




(** ** Tag overrides *)

Lemma applyBatteryMask_keeps (iBeaconBatteryLevel : Peripheral -> Z -> option Z)
    (t : Tag) (mask : Z) :
  tag_id (applyBatteryMask iBeaconBatteryLevel t mask) = tag_id t /\
  tag_isApp (applyBatteryMask iBeaconBatteryLevel t mask) = tag_isApp t /\
  tag_peripheral (applyBatteryMask iBeaconBatteryLevel t mask) = tag_peripheral t.
Proof. unfold applyBatteryMask. by destruct (tag_isIBeacon t). Qed.

Lemma tail_tag_keeps (iBeaconBatteryLevel : Peripheral -> Z -> option Z)
    (tagOverrides : gmap string TagOverride) (tag : Tag) (mask : Z) :
  tag_id (applyBatteryMask iBeaconBatteryLevel (fst (applyOverrides tagOverrides tag mask))
            (snd (applyOverrides tagOverrides tag mask))) = tag_id tag /\
  tag_isApp (applyBatteryMask iBeaconBatteryLevel (fst (applyOverrides tagOverrides tag mask))
               (snd (applyOverrides tagOverrides tag mask))) = tag_isApp tag /\
  tag_peripheral (applyBatteryMask iBeaconBatteryLevel (fst (applyOverrides tagOverrides tag mask))
                    (snd (applyOverrides tagOverrides tag mask))) = tag_peripheral tag.
Proof.
  destruct (applyBatteryMask_keeps iBeaconBatteryLevel (fst (applyOverrides tagOverrides tag mask))
              (snd (applyOverrides tagOverrides tag mask))) as (H1 & H2 & H3).
  rewrite H1, H2, H3. unfold applyOverrides. by destruct (tagOverrides !! tag_id tag).
Qed.

(** [applyOverrides] never changes the tag's id (the key of the filter, the
    Kalman state and the throttle), never changes the battery mask of a tag
    that is not an [IBeacon], and applying it a second time changes
    nothing. *)
Theorem applyOverrides_keeps_id_idempotent (tagOverrides : gmap string TagOverride)
    (tag : Tag) (mask : Z) :
  let r := applyOverrides tagOverrides tag mask in
  tag_id (fst r) = tag_id tag /\
  tag_isApp (fst r) = tag_isApp tag /\
  tag_rssi (fst r) = tag_rssi tag /\
  (tag_isIBeacon tag = false -> snd r = mask) /\
  applyOverrides tagOverrides (fst r) (snd r) = r.
Proof.
  unfold applyOverrides.
  destruct (tagOverrides !! tag_id tag) as [o|] eqn:Ho; simpl.
  - repeat split; try done.
    + intros Hb. destruct (ov_batteryMask o); [by rewrite Hb|done].
    + rewrite Ho. destruct o as [n m b]; simpl.
      destruct n, m, b; simpl; try done;
        destruct (tag_isIBeacon tag); done.
  - repeat split; try done. by rewrite Ho.
Qed.

(** ** Allowlist and whitelist aliases *)

(** The legacy keys [whitelist]/[blacklist] are aliases: two configurations
    whose allowlist and whitelist entries concatenate to the same list, whose
    denylist and blacklist entries do too, and which enable regex matching on
    the same side(s) (through either key), let exactly the same ids pass. *)
Theorem filter_aliases_equivalent (toLowerCase : string -> string)
    (regexMatches : string -> string -> bool) (cfg1 cfg2 : BluetoothLowEnergyConfig)
    (id : string) :
  orEmpty (allowlist cfg1) ++ orEmpty (whitelist cfg1) =
    orEmpty (allowlist cfg2) ++ orEmpty (whitelist cfg2) ->
  orEmpty (denylist cfg1) ++ orEmpty (blacklist cfg1) =
    orEmpty (denylist cfg2) ++ orEmpty (blacklist cfg2) ->
  allowlistRegex cfg1 || whitelistRegex cfg1 = allowlistRegex cfg2 || whitelistRegex cfg2 ->
  denylistRegex cfg1 || blacklistRegex cfg1 = denylistRegex cfg2 || blacklistRegex cfg2 ->
  passesFilter toLowerCase regexMatches cfg1 id = passesFilter toLowerCase regexMatches cfg2 id.
Proof.
  intros Ha Hd Hra Hrd.
  assert (Hne : forall a w, nonEmpty a || nonEmpty w =
                            match orEmpty a ++ orEmpty w with [] => false | _ => true end).
  { intros [[|x a]|] [[|y w]|]; reflexivity. }
  unfold passesFilter, isOnAllowlist, isOnDenylist, isAllowlistEnabled, isDenylistEnabled.
  rewrite !Hne, Ha, Hd, Hra, Hrd. reflexivity.
Qed.

Lemma filter_aliases_equivalent_witness :
  passesFilter (fun s => s) (fun _ _ => false) allowConfig "AA:BB:CC" =
  passesFilter (fun s => s) (fun _ _ => false) whitelistConfig "AA:BB:CC".
Proof. apply filter_aliases_equivalent; reflexivity. Defined.

(** ** The rest of [handleDiscovery] *)

(** After the companion step, [handleDiscovery] records the tag's id in
    [seenIds] whether or not the tag passes the filter; a tag that does not
    pass gets no throttle and dispatches nothing; other tags' throttles are
    never touched; the first passing observation of an id creates its
    throttle and dispatches at once an event for that id, with the smoothed
    signal strength and the peripheral's id. *)
Theorem handleDiscoveryTail_spec (toLowerCase : string -> string)
    (regexMatches : string -> string -> bool) (tagDistance : Z -> Z -> Q)
    (iBeaconBatteryLevel : Peripheral -> Z -> option Z)
    (cfg : BluetoothLowEnergyConfig) (tagOverrides : gmap string TagOverride)
    (instanceName : string) (now smoothed : Z) (ds : DiscoveryState) (tag : Tag) :
  let r := handleDiscoveryTail toLowerCase regexMatches tagDistance iBeaconBatteryLevel cfg tagOverrides
             instanceName now smoothed ds tag in
  tag_id tag ∈ seenIds (fst r) /\
  (forall id, id ≠ tag_id tag -> tagUpdaters (fst r) !! id = tagUpdaters ds !! id) /\
  (passesFilter toLowerCase regexMatches cfg (tag_id tag) = false ->
     tagUpdaters (fst r) = tagUpdaters ds /\ snd r = []) /\
  (passesFilter toLowerCase regexMatches cfg (tag_id tag) = true ->
   tagUpdaters ds !! tag_id tag = None ->
     is_Some (tagUpdaters (fst r) !! tag_id tag) /\
     exists ev, snd r = [ev] /\ ev_tagId ev = tag_id tag /\ ev_rssi ev = smoothed /\
                ev_peripheralId ev = peripheral_id (tag_peripheral tag) /\
                ev_isApp ev = tag_isApp tag).
Proof.
  unfold handleDiscoveryTail. cbv zeta.
  destruct (tail_tag_keeps iBeaconBatteryLevel tagOverrides tag (batteryMask cfg))
    as (Hid & Happ & Hper).
  remember (applyBatteryMask iBeaconBatteryLevel _ _) as t1 eqn:Ht1. clear Ht1.
  destruct (passesFilter _ _ cfg (tag_id tag)) eqn:Hp.
  - destruct (Throttle.call _ _ _ _ _) as [th out] eqn:Hc. simpl.
    rewrite Hid. split; [set_solver|]. split.
    { intros id Hne. by rewrite lookup_insert_ne. }
    split; [discriminate|]. intros _ Hnone.
    split; [rewrite lookup_insert_eq; by eexists|].
    cbn [setRssi tag_id tagUpdaters] in Hc. rewrite Hid, Hnone in Hc.
    unfold Throttle.call, Throttle.shouldInvoke in Hc.
    simpl in Hc. injection Hc as <- <-.
    eexists. split; [reflexivity|]. unfold buildEvent. simpl.
    rewrite Hid, Happ, Hper. done.
  - simpl. split; [set_solver|]. split; [done|]. split; [done|discriminate].
Qed.

(** Two passing observations of one tag, the first on a fresh throttle at
    [now] and the second at [now'] with [now <= now' < now + wait]: the second
    dispatches nothing immediately. *)
Theorem handleDiscoveryTail_coalesces (toLowerCase : string -> string)
    (regexMatches : string -> string -> bool) (tagDistance : Z -> Z -> Q)
    (iBeaconBatteryLevel : Peripheral -> Z -> option Z)
    (cfg : BluetoothLowEnergyConfig) (tagOverrides : gmap string TagOverride)
    (instanceName : string) (now now' smoothed smoothed' : Z)
    (ds : DiscoveryState) (tag tag' : Tag) :
  (0 < updateFrequency cfg)%Z ->
  passesFilter toLowerCase regexMatches cfg (tag_id tag) = true ->
  tagUpdaters ds !! tag_id tag = None ->
  tag_id tag' = tag_id tag ->
  (now <= now' < now + updateFrequency cfg * 1000)%Z ->
  let ds1 := fst (handleDiscoveryTail toLowerCase regexMatches tagDistance iBeaconBatteryLevel cfg
                    tagOverrides instanceName now smoothed ds tag) in
  snd (handleDiscoveryTail toLowerCase regexMatches tagDistance iBeaconBatteryLevel cfg tagOverrides
         instanceName now' smoothed' ds1 tag') = [].
Proof.
  intros Hf Hp Hnone Hsame Hnow. cbv zeta.
  destruct (tail_tag_keeps iBeaconBatteryLevel tagOverrides tag (batteryMask cfg))
    as (Hid & _).
  destruct (tail_tag_keeps iBeaconBatteryLevel tagOverrides tag' (batteryMask cfg))
    as (Hid' & _).
  set (w := (updateFrequency cfg * 1000)%Z).
  set (r1 := handleDiscoveryTail toLowerCase regexMatches tagDistance iBeaconBatteryLevel cfg tagOverrides
               instanceName now smoothed ds tag).
  assert (H1 : exists a, tagUpdaters (fst r1) !! tag_id tag =
                         Some (Throttle.mkState _ a (Some now) now (Some (now + w))%Z)).
  { unfold r1, handleDiscoveryTail. cbv zeta. rewrite Hp.
    destruct (Throttle.call _ _ _ _ _) as [th out] eqn:Hc. simpl.
    rewrite Hid, lookup_insert_eq.
    cbn [setRssi tag_id tagUpdaters] in Hc. rewrite Hid, Hnone in Hc.
    unfold Throttle.call, Throttle.shouldInvoke, Throttle.invokeFunc in Hc.
    simpl in Hc. injection Hc as <- _. by eexists. }
  destruct H1 as [a H1].
  unfold handleDiscoveryTail. cbv zeta. rewrite Hsame, Hp.
  destruct (Throttle.call _ _ _ _ _) as [th out] eqn:Hc. simpl.
  cbn [setRssi tag_id tagUpdaters] in Hc. rewrite Hid', Hsame, H1 in Hc.
  unfold Throttle.call, Throttle.shouldInvoke in Hc. simpl in Hc.
  replace (w <=? now' - now)%Z with false in Hc
    by (symmetry; apply Z.leb_gt; unfold w in *; lia).
  replace (now' - now <? 0)%Z with false in Hc by (symmetry; apply Z.ltb_ge; lia).
  simpl in Hc. unfold w in Hc.
  replace (updateFrequency cfg * 1000 <=? now' - now)%Z with false in Hc
    by (symmetry; apply Z.leb_gt; lia).
  simpl in Hc. injection Hc as _ <-. reflexivity.
Qed.

Lemma handleDiscoveryTail_coalesces_witness :
  snd (handleDiscoveryTail (fun s => s) (fun _ _ => false) (fun _ _ => 1%Q) (fun _ _ => None) allowConfig ∅
         "node-1" 500 (-70)
         (fst (handleDiscoveryTail (fun s => s) (fun _ _ => false) (fun _ _ => 1%Q)
                 (fun _ _ => None) allowConfig ∅ "node-1" 0 (-70) (mkDS ∅ ∅) appleTag)) appleTag) = [].
Proof.
  apply handleDiscoveryTail_coalesces; try reflexivity; vm_compute; try done.
Defined.

(** The battery level of a passing observation's first event: for an
    [IBeacon] it is read with the [batteryMask] of its entry in
    [tagOverrides] when that entry sets one, and with the configured
    [batteryMask] otherwise; for a plain [Tag] it is [undefined]. *)
Theorem handleDiscoveryTail_battery_override (toLowerCase : string -> string)
    (regexMatches : string -> string -> bool) (tagDistance : Z -> Z -> Q)
    (iBeaconBatteryLevel : Peripheral -> Z -> option Z)
    (cfg : BluetoothLowEnergyConfig) (tagOverrides : gmap string TagOverride)
    (instanceName : string) (now smoothed : Z) (ds : DiscoveryState) (tag : Tag) :
  passesFilter toLowerCase regexMatches cfg (tag_id tag) = true ->
  tagUpdaters ds !! tag_id tag = None ->
  exists ev,
    snd (handleDiscoveryTail toLowerCase regexMatches tagDistance iBeaconBatteryLevel cfg
           tagOverrides instanceName now smoothed ds tag) = [ev] /\
    ev_batteryLevel ev =
      if tag_isIBeacon tag
      then iBeaconBatteryLevel (tag_peripheral tag)
             (match tagOverrides !! tag_id tag with
              | Some o => match ov_batteryMask o with Some m => m | None => batteryMask cfg end
              | None => batteryMask cfg
              end)
      else None.
Proof.
  intros Hp Hnone.
  destruct (tail_tag_keeps iBeaconBatteryLevel tagOverrides tag (batteryMask cfg))
    as (Hid & _ & _).
  unfold handleDiscoveryTail. cbv zeta. rewrite Hp.
  destruct (Throttle.call _ _ _ _ _) as [th out] eqn:Hc. simpl.
  cbn [setRssi tag_id tagUpdaters] in Hc. rewrite Hid, Hnone in Hc.
  unfold Throttle.call, Throttle.shouldInvoke in Hc.
  simpl in Hc. injection Hc as _ <-.
  eexists. split; [reflexivity|]. unfold buildEvent. simpl.
  unfold applyOverrides.
  destruct (tagOverrides !! tag_id tag) as [o|]; [destruct (ov_batteryMask o)|].
  all: unfold applyBatteryMask, setNameAndPower; cbn [fst snd tag_isIBeacon tag_batteryLevel tag_peripheral].
  all: destruct (tag_isIBeacon tag) eqn:Hb; simpl; rewrite ?Hb; done.
Qed.

(** An [IBeacon] whose override sets [batteryMask = 255]. *)
Definition beaconTag : Tag :=
  mkTag "AA:BB:CC" "beacon" (-70) iBeaconPeripheral (-59) false true None.

Lemma handleDiscoveryTail_battery_override_witness :
  exists ev,
    snd (handleDiscoveryTail (fun s => s) (fun _ _ => false) (fun _ _ => 1%Q)
           (fun _ m => Some m) allowConfig
           {[ "AA:BB:CC" := mkTagOverride None None (Some 255%Z) ]}
           "node-1" 0 (-70) (mkDS ∅ ∅) beaconTag) = [ev] /\
    ev_batteryLevel ev = Some 255%Z.
Proof.
  destruct (handleDiscoveryTail_battery_override (fun s => s) (fun _ _ => false) (fun _ _ => 1%Q)
           (fun _ m => Some m) allowConfig
           {[ "AA:BB:CC" := mkTagOverride None None (Some 255%Z) ]}
           "node-1" 0 (-70) (mkDS ∅ ∅) beaconTag) as [ev [Hev Hb]];
    [vm_compute; reflexivity | vm_compute; reflexivity |].
  exists ev. split; [exact Hev|]. rewrite Hb. vm_compute. reflexivity.
Defined.

(** ** A successful read, reused *)

(** When the handshake reads a value [v] (any string, the empty one
    included), the resumed [applyCompanionAppOverride] returns the tag with
    id [v] marked as an app identity, the cache maps the transport id to [v],
    and the next advertisement with that transport id gets [v] without a new
    handshake. From a reachable state, in every later state the entry stays
    a non-null identity (an [isApp] event may replace [v] by another one),
    and every advertisement with that transport id gets the cached identity
    synchronously, without a new handshake. *)
Theorem companion_read_value_reused (st : CompanionState) (tag : Tag) (v : string) :
  let r := applyCompanionAppOverride_resume st tag ConnectResolved (ReadResolved (Some v)) in
  tag_id (snd r) = v /\ tag_isApp (snd r) = true /\
  companionAppTags (fst r) !! tag_id tag = Some (Some v) /\
  (forall tag2, tag_id tag2 = tag_id tag ->
    applyCompanionAppOverride_sync (fst r) tag2 = (fst r, Some (setAppId tag2 v))) /\
  (rtc companion_step initialCompanionState st -> In (tag_id tag) (inflight st) ->
   forall st2, rtc companion_step (fst r) st2 ->
   forall tag2, tag_id tag2 = tag_id tag ->
     exists w, companionAppTags st2 !! tag_id tag = Some (Some w) /\
       applyCompanionAppOverride_sync st2 tag2 = (st2, Some (setAppId tag2 w))).
Proof.
  cbv zeta. unfold applyCompanionAppOverride_resume at 1 2 3 4 5. cbn [fst snd].
  set (st' := applyCompanionAppOverride_finish st (tag_id tag)
                (discoverCompanionAppId ConnectResolved (ReadResolved (Some v)))).
  assert (Ht : companionAppTags st' !! tag_id tag = Some (Some v)).
  { unfold st'. simpl. unfold handleAppDiscovery. simpl. rewrite andb_false_r. simpl.
    by rewrite lookup_insert_eq. }
  split; [|split; [|split; [|split]]].
  - unfold applyCachedAppId. by rewrite Ht.
  - unfold applyCachedAppId. by rewrite Ht.
  - exact Ht.
  - intros tag2 Hid. unfold applyCompanionAppOverride_sync.
    rewrite cached_no_start by (rewrite Hid, Ht; by eexists).
    unfold applyCachedAppId. by rewrite Hid, Ht.
  - intros Hr Hin st2 H2 tag2 Hid.
    destruct (resume_resolved_kept st tag ConnectResolved (ReadResolved (Some v)) (Some v)
                Hr Hin eq_refl) as [_ Hnot].
    destruct (resolved_entry_rtc st' st2 (tag_id tag) H2 (ex_intro _ v Ht) Hnot) as [w Hw].
    exists w. split; [exact Hw|].
    unfold applyCompanionAppOverride_sync.
    rewrite cached_no_start by (rewrite Hid, Hw; by eexists).
    unfold applyCachedAppId. by rewrite Hid, Hw.
Qed.

(** ** HomeAssistantService *)

Lemma getKey_setKey_eq {A} (o : list (string * A)) k v :
  getKey (setKey o k v) k = Some v.
Proof.
  induction o as [|[k' v'] o IH]; simpl.
  - by rewrite String.eqb_refl.
  - destruct (String.eqb_spec k k') as [->|Hne]; simpl.
    + by rewrite String.eqb_refl.
    + rewrite (proj2 (String.eqb_neq k k') Hne). exact IH.
Qed.

Lemma getKey_setKey_ne {A} (o : list (string * A)) k k' v :
  k' <> k -> getKey (setKey o k v) k' = getKey o k'.
Proof.
  intros Hne. induction o as [|[k1 v1] o IH]; simpl.
  - by rewrite (proj2 (String.eqb_neq k' k) Hne).
  - destruct (String.eqb_spec k k1) as [->|Hne1]; simpl.
    + by rewrite (proj2 (String.eqb_neq k' k1) Hne).
    + by rewrite IH.
Qed.

Lemma keys_setKey {A} (o : list (string * A)) k v x :
  In x (map fst (setKey o k v)) <-> x = k \/ In x (map fst o).
Proof.
  induction o as [|[k1 v1] o IH]; simpl.
  - intuition congruence.
  - destruct (String.eqb_spec k k1) as [->|Hne]; simpl.
    + split; [intuition congruence|]. intros [->|[->|H]]; auto.
    + rewrite IH. tauto.
Qed.

Lemma append_cancel_l (p a b : string) :
  (p ++ a)%string = (p ++ b)%string -> a = b.
Proof.
  induction p as [|c p IH]; simpl; intros H; [exact H|].
  injection H as H. by apply IH.
Qed.

Lemma existsb_eqb_false (k : string) (l : list string) :
  existsb (String.eqb k) l = false <-> ~ In k l.
Proof.
  induction l as [|x l IH]; simpl; [tauto|].
  rewrite orb_false_iff, IH. split.
  - intros [Hx Hl] [->|H]; [by rewrite String.eqb_refl in Hx|contradiction].
  - intros Hn. split; [|tauto].
    apply String.eqb_neq. intros ->. tauto.
Qed.

Lemma keys_omit (o : JObject) bl k :
  In k (map fst (omit o bl)) <-> In k (map fst o) /\ ~ In k bl.
Proof.
  induction o as [|[k1 v1] o IH]; simpl; [tauto|].
  destruct (existsb (String.eqb k1) bl) eqn:E; simpl.
  - rewrite IH. split; [tauto|]. intros [[->|H] Hn]; [|tauto].
    exfalso. apply (proj2 (existsb_eqb_false _ bl)) in Hn. congruence.
  - rewrite IH. split.
    + intros [->|[H1 H2]]; [split; [tauto|by apply existsb_eqb_false]|tauto].
    + tauto.
Qed.

Lemma in_omit (o : JObject) bl k v :
  In (k, v) (omit o bl) <-> In (k, v) o /\ ~ In k bl.
Proof.
  unfold omit. rewrite filter_In. simpl.
  rewrite negb_true_iff, existsb_eqb_false. tauto.
Qed.

Lemma keys_mapValues f (o : JObject) : map fst (mapValues f o) = map fst o.
Proof. unfold mapValues. rewrite map_map. by apply map_ext. Qed.

Lemma in_mapValues f (o : JObject) k w :
  In (k, w) (mapValues f o) <-> exists v, w = f v /\ In (k, v) o.
Proof.
  unfold mapValues. rewrite in_map_iff. split.
  - intros [[k1 v1] [Heq Hin]]. simpl in Heq. injection Heq as <- <-. eauto.
  - intros [v [-> Hin]]. by exists (k, v).
Qed.

Lemma keys_mapKeys_fold (f : string -> string) (o acc : JObject) k :
  In k (map fst (fold_left (fun acc kv => setKey acc (f (fst kv)) (snd kv)) o acc)) <->
  In k (map fst acc) \/ exists k0, In k0 (map fst o) /\ f k0 = k.
Proof.
  revert acc. induction o as [|[k1 v1] o IH]; intros acc; simpl.
  - split; [tauto|]. intros [H|[k0 [[] _]]]. exact H.
  - rewrite IH, keys_setKey. split.
    + intros [[->|H]|[k0 [H1 H2]]]; eauto.
    + intros [H|[k0 [[->|H1] H2]]]; eauto.
Qed.

Lemma keys_mapKeys (f : string -> string) (o : JObject) k :
  In k (map fst (mapKeys f o)) <-> exists k0, In k0 (map fst o) /\ f k0 = k.
Proof. unfold mapKeys. rewrite keys_mapKeys_fold. simpl. tauto. Qed.

Lemma getKey_mapKeys_fold_none (f : string -> string) (o acc : JObject) k :
  (forall k1 v1, In (k1, v1) o -> f k1 <> k) ->
  getKey (fold_left (fun acc kv => setKey acc (f (fst kv)) (snd kv)) o acc) k = getKey acc k.
Proof.
  revert acc. induction o as [|[k1 v1] o IH]; intros acc Hn; simpl; [done|].
  rewrite IH; [|intros; eapply Hn; right; eauto].
  apply getKey_setKey_ne. intros Heq. apply (Hn k1 v1); [by left|by rewrite Heq].
Qed.

Lemma getKey_mapKeys_fold_unique (f : string -> string) (o acc : JObject) k0 v :
  In (k0, v) o ->
  (forall k1 v1, In (k1, v1) o -> f k1 = f k0 -> k1 = k0 /\ v1 = v) ->
  getKey (fold_left (fun acc kv => setKey acc (f (fst kv)) (snd kv)) o acc) (f k0) = Some v.
Proof.
  revert acc. induction o as [|[k1 v1] o IH]; intros acc Hin Hu; simpl; [destruct Hin|].
  destruct (String.eqb_spec (f k1) (f k0)) as [Heq|Hne].
  - destruct (Hu k1 v1 (or_introl eq_refl) Heq) as [-> ->].
    destruct (existsb (fun kv => String.eqb (f (fst kv)) (f k0)) o) eqn:E.
    + apply existsb_exists in E as [[k2 v2] [Hin2 Hk2]]. simpl in Hk2.
      apply String.eqb_eq in Hk2.
      destruct (Hu k2 v2 (or_intror Hin2) Hk2) as [-> ->].
      apply IH; [exact Hin2|]. intros; apply Hu; [right|]; done.
    + rewrite getKey_mapKeys_fold_none; [apply getKey_setKey_eq|].
      intros k2 v2 Hin2 Hk2.
      assert (Hx : existsb (fun kv => String.eqb (f (fst kv)) (f k0)) o = true).
      { apply existsb_exists. exists (k2, v2). split; [done|]. simpl.
        by apply String.eqb_eq. }
      congruence.
  - destruct Hin as [Heq|Hin]; [injection Heq as -> ->; congruence|].
    apply IH; [exact Hin|]. intros; apply Hu; [right|]; done.
Qed.

Lemma call_never_invokes w st now : snd (Debounce.call w st now) = false.
Proof.
  unfold Debounce.call. cbv zeta.
  destruct (_ && _); [done|]. by destruct (Debounce.timerId st).
Qed.

Lemma getCombinedId_true_false (instanceName e1 e2 : string) :
  String.prefix "distributed" instanceName = false ->
  getCombinedId instanceName e1 true <> getCombinedId instanceName e2 false.
Proof.
  intros Hname. unfold getCombinedId. intros H. cbv [String.append] in H.
  do 11 (destruct instanceName as [|c instanceName];
         cbn in H; [discriminate H|injection H as Hc H; subst c]).
  (* [prefix] recurses on its second argument: one more case split *)
  destruct instanceName; cbv in Hname; discriminate Hname.
Qed.

Lemma getCombinedId_flag_ne (instanceName e : string) (d : bool) :
  String.prefix "distributed" instanceName = false ->
  getCombinedId instanceName e (negb d) <> getCombinedId instanceName e d.
Proof.
  intros Hname. destruct d; simpl.
  - intros H. symmetry in H. revert H. by apply getCombinedId_true_false.
  - by apply getCombinedId_true_false.
Qed.

Lemma getKey_mapKeys_unique (f : string -> string) (o : JObject) k0 v :
  In (k0, v) o ->
  (forall k1 v1, In (k1, v1) o -> f k1 = f k0 -> k1 = k0 /\ v1 = v) ->
  getKey (mapKeys f o) (f k0) = Some v.
Proof. apply getKey_mapKeys_fold_unique. Qed.

Lemma keys_map_pair (g : JValue -> JValue) (o : JObject) :
  map fst (map (fun kv => match kv with (k, w) => (k, g w) end) o) = map fst o.
Proof. rewrite map_map. apply map_ext. by intros [? ?]. Qed.

Section HomeAssistantProps.
Variable instanceName : string.
Variable snakeCase : string -> string.
Variable SensorConfig : string -> string -> JObject.
Variable newDevice : string -> JObject.

Lemma handleNewEntity_configs st e o :
  isSensor e = true ->
  exists config,
    entityConfigs (handleNewEntity instanceName snakeCase SensorConfig newDevice st e o) =
      setKey (entityConfigs st) (getCombinedId instanceName (entity_id e) (entity_distributed e)) config.
Proof.
  intros Hs. unfold handleNewEntity. rewrite Hs. simpl. eauto.
Qed.

End HomeAssistantProps.

(** [getCombinedId] is injective in the entity id for a given
    [distributed] flag: two entities of one kind share a Home Assistant
    configuration only if they have the same id. *)
Theorem getCombinedId_injective (instanceName e1 e2 : string) (distributed : bool)
  (H : getCombinedId instanceName e1 distributed = getCombinedId instanceName e2 distributed) :
  e1 = e2.
Proof.
  unfold getCombinedId in H. apply append_cancel_l in H.
  simpl in H. injection H as H. exact H.
Qed.

Lemma getCombinedId_injective_witness :
  getCombinedId "kitchen" "ble-1" false = getCombinedId "kitchen" "ble-1" false /\
  "ble-1"%string = "ble-1"%string.
Proof.
  split; [reflexivity|].
  apply (getCombinedId_injective "kitchen" "ble-1" "ble-1" false). reflexivity.
Defined.

(** A local and a distributed entity never share a combined id unless the
    instance name starts with ["distributed"]: [`${instanceName}_${id}`]
    and [`distributed_${id}`] can only coincide through the instance name. *)
Theorem getCombinedId_local_distributed_disjoint (instanceName e1 e2 : string)
  (Hname : String.prefix "distributed" instanceName = false) :
  getCombinedId instanceName e1 true <> getCombinedId instanceName e2 false.
Proof. by apply getCombinedId_true_false. Qed.

Lemma getCombinedId_local_distributed_disjoint_witness :
  String.prefix "distributed" "living-room" = false /\
  getCombinedId "living-room" "ble-1" true <> getCombinedId "living-room" "ble-1" false.
Proof.
  split; [reflexivity|].
  apply (getCombinedId_local_distributed_disjoint "living-room" "ble-1" "ble-1").
  reflexivity.
Defined.

(** [formatMessage] keeps exactly the top-level properties other than
    [component] and [configTopic], under their [snakeCase] names. *)
Theorem formatMessage_keys (snakeCase : string -> string) (message : JObject) (k : string) :
  In k (map fst (formatMessage snakeCase message)) <->
  exists k0, In k0 (map fst message) /\ ~ In k0 PROPERTY_BLACKLIST /\ snakeCase k0 = k.
Proof.
  unfold formatMessage, deepMap. rewrite keys_mapKeys. setoid_rewrite keys_mapValues.
  setoid_rewrite keys_omit. firstorder.
Qed.

(** The value published for a kept property whose [snakeCase] name no other
    kept property shares: a value that is not an object (an array included,
    with any objects inside it) is published as it is; an object has all its
    keys converted, [component] and [configTopic] included, since only the
    top level is filtered. *)
Theorem formatMessage_values (snakeCase : string -> string) (message : JObject)
  (k0 : string) (v : JValue)
  (Hin : In (k0, v) message) (Hbl : ~ In k0 PROPERTY_BLACKLIST)
  (Huniq : forall k1 v1, In (k1, v1) message -> ~ In k1 PROPERTY_BLACKLIST ->
           snakeCase k1 = snakeCase k0 -> k1 = k0 /\ v1 = v) :
  match v with
  | JObj inner =>
      exists inner',
        getKey (formatMessage snakeCase message) (snakeCase k0) = Some (JObj inner') /\
        forall k, In k (map fst inner') <-> exists k1, In k1 (map fst inner) /\ snakeCase k1 = k
  | _ => getKey (formatMessage snakeCase message) (snakeCase k0) = Some v
  end.
Proof.
  assert (H : getKey (formatMessage snakeCase message) (snakeCase k0) =
              Some (deepMapValue (mapKeys snakeCase) v)).
  { unfold formatMessage, deepMap. apply getKey_mapKeys_unique.
    - apply in_mapValues. exists v. split; [done|]. by apply in_omit.
    - intros k1 w1 Hw Heq. apply in_mapValues in Hw as [v1 [-> Hv1]].
      apply in_omit in Hv1 as [Hv1 Hbl1].
      by destruct (Huniq k1 v1 Hv1 Hbl1 Heq) as [-> ->]. }
  destruct v as [| | | | | |inner]; try exact H.
  eexists. split; [exact H|]. intros k.
  rewrite keys_mapKeys, keys_map_pair. reflexivity.
Qed.

Lemma formatMessage_values_witness :
  In ("values"%string, JArr [JObj [("configTopic"%string, JNull)]])
     [("component"%string, JStr "sensor"); ("values"%string, JArr [JObj [("configTopic"%string, JNull)]])] /\
  getKey (formatMessage (fun s => s)
            [("component"%string, JStr "sensor"); ("values"%string, JArr [JObj [("configTopic"%string, JNull)]])])
         "values" = Some (JArr [JObj [("configTopic"%string, JNull)]]).
Proof.
  split; [simpl; tauto|].
  apply (formatMessage_values (fun s => s)
           [("component"%string, JStr "sensor"); ("values"%string, JArr [JObj [("configTopic"%string, JNull)]])]
           "values" (JArr [JObj [("configTopic"%string, JNull)]])).
  - simpl. tauto.
  - simpl. intros [H|[H|[]]]; discriminate H.
  - intros k1 v1 [H|[H|[]]] Hbl1 Heq; injection H as <- <-.
    + exfalso. apply Hbl1. simpl. tauto.
    + done.
Defined.

(** [handleNewEntity] on a non-sensor changes nothing. On a sensor it stores
    one configuration under the combined id, leaving the other ids alone; its
    [device] is the hub device for a distributed entity and [this.device]
    (still [undefined] before bootstrap completes) otherwise, whatever the
    entity options set; and it publishes exactly the retained configuration
    and then the availability payload. *)
Theorem handleNewEntity_spec (instanceName : string) (snakeCase : string -> string)
  (SensorConfig : string -> string -> JObject) (newDevice : string -> JObject)
  (st : HAState) (e : Entity) (o : option EntityOptions) :
  let st' := handleNewEntity instanceName snakeCase SensorConfig newDevice st e o in
  let combinedId := getCombinedId instanceName (entity_id e) (entity_distributed e) in
  if isSensor e then
    exists config,
      getKey (entityConfigs st') combinedId = Some config /\
      getProp config "device" =
        (if entity_distributed e then JObj (hubDevice newDevice) else device st) /\
      (forall id, id <> combinedId -> getKey (entityConfigs st') id = getKey (entityConfigs st) id) /\
      debounceFunctions st' = debounceFunctions st /\ device st' = device st /\
      published st' = published st ++
        [mkMessage (getProp config "configTopic") (PJson (formatMessage snakeCase config)) true;
         mkMessage (getProp config "availabilityTopic") (PValue (getProp config "payloadAvailable")) false]
  else st' = st.
Proof.
  cbv zeta. unfold handleNewEntity. destruct (isSensor e); [|reflexivity]. simpl.
  eexists. split; [apply getKey_setKey_eq|].
  split; [destruct (entity_distributed e); unfold getProp; by rewrite getKey_setKey_eq|].
  split; [intros id Hne; by apply getKey_setKey_ne|].
  do 2 (split; [done|]). by rewrite <- app_assoc.
Qed.

(** Once a sensor is registered, a state for it (same id, same
    [distributed] flag) is published once, to the [stateTopic] of the
    stored configuration; unless the instance name starts with
    ["distributed"], a state for the same id with the other flag is routed
    exactly as before the registration. *)
Theorem handleNewState_routing (instanceName : string) (snakeCase : string -> string)
  (SensorConfig : string -> string -> JObject) (newDevice : string -> JObject)
  (st : HAState) (e : Entity) (o : option EntityOptions) (s : StateValue)
  (Hs : isSensor e = true)
  (Hname : String.prefix "distributed" instanceName = false) :
  let st1 := handleNewEntity instanceName snakeCase SensorConfig newDevice st e o in
  (exists config,
     getKey (entityConfigs st1) (getCombinedId instanceName (entity_id e) (entity_distributed e)) = Some config /\
     published (handleNewState instanceName st1 (entity_id e) s (entity_distributed e)) =
       published st1 ++ [mkMessage (getProp config "stateTopic") (PState s) false]) /\
  published (handleNewState instanceName st1 (entity_id e) s (negb (entity_distributed e))) =
    published st1 ++
      match getKey (entityConfigs st) (getCombinedId instanceName (entity_id e) (negb (entity_distributed e))) with
      | Some config => [mkMessage (getProp config "stateTopic") (PState s) false]
      | None => []
      end.
Proof.
  cbv zeta. destruct (handleNewEntity_configs instanceName snakeCase SensorConfig newDevice st e o Hs)
    as [config Hc].
  split.
  - exists config. unfold handleNewState. rewrite Hc, getKey_setKey_eq. split; reflexivity.
  - unfold handleNewState. rewrite Hc, getKey_setKey_ne by (by apply getCombinedId_flag_ne).
    destruct (getKey _ _); simpl; [reflexivity|by rewrite app_nil_r].
Qed.

Lemma handleNewState_routing_witness :
  isSensor sampleSensor = true /\ String.prefix "distributed" "kitchen" = false /\
  published (handleNewState "kitchen"
    (handleNewEntity "kitchen" (fun s => s) sampleSensorConfig sampleDevice initialHAState sampleSensor None)
    (entity_id sampleSensor) (SBool true) (negb (entity_distributed sampleSensor))) =
  published (handleNewEntity "kitchen" (fun s => s) sampleSensorConfig sampleDevice initialHAState sampleSensor None) ++ [].
Proof.
  split; [reflexivity|]. split; [reflexivity|].
  exact (proj2 (handleNewState_routing "kitchen" (fun s => s) sampleSensorConfig sampleDevice
                  initialHAState sampleSensor None (SBool true) eq_refl eq_refl)).
Defined.

(** [handleNewAttributes] never publishes by itself: lodash's debounce does
    not run on the leading edge, so a message can only come from a timer. *)
Theorem handleNewAttributes_never_publishes (instanceName : string) (snakeCase : string -> string)
  (heap : Heap) (st : HAState) (now : Z) (entityId : string) (attributes : nat) (distributed : bool) :
  published (handleNewAttributes instanceName snakeCase heap st now entityId attributes distributed) =
  published st.
Proof.
  unfold handleNewAttributes. destruct (getKey (entityConfigs st) _); [|reflexivity].
  destruct (getKey (debounceFunctions st) entityId) as [ap|]; [|reflexivity].
  unfold updatePublisher. rewrite call_never_invokes. reflexivity.
Qed.



(** The debounced functions are keyed by the bare entity id while the
    configurations are keyed by the combined id: after a first call, a second
    call for the same id (with any attributes, and the [distributed] flag of
    any registered configuration) followed by the timer publishes the first
    call's attribute object, as it is when the timer runs, to the first
    call's [jsonAttributesTopic]. *)
Theorem handleNewAttributes_publishes_first_capture (instanceName : string)
  (snakeCase : string -> string) (heap1 heap2 heap3 : Heap) (st : HAState)
  (now1 now2 now3 : Z) (entityId : string) (a1 a2 : nat) (d1 d2 : bool)
  (config1 config2 : JObject)
  (Hreg1 : getKey (entityConfigs st) (getCombinedId instanceName entityId d1) = Some config1)
  (Hreg2 : getKey (entityConfigs st) (getCombinedId instanceName entityId d2) = Some config2)
  (Hnone : getKey (debounceFunctions st) entityId = None)
  (Ht : (now2 <= now3)%Z) :
  let st1 := handleNewAttributes instanceName snakeCase heap1 st now1 entityId a1 d1 in
  let st2 := handleNewAttributes instanceName snakeCase heap2 st1 now2 entityId a2 d2 in
  let st3 := debounceTimerFires snakeCase heap3 st2 entityId now3 in
  published st3 = published st ++
    [mkMessage (getProp config1 "jsonAttributesTopic")
               (PJson (formatMessage snakeCase (heap3 a1))) false].
Proof.
  cbv zeta. unfold handleNewAttributes at 2. unfold handleNewAttributes. rewrite Hreg1, Hnone.
  cbn [entityConfigs debounceFunctions]. rewrite Hreg2, getKey_setKey_eq.
  unfold updatePublisher. cbn [Debounce.call Debounce.shouldInvoke Debounce.init
    Debounce.lastCallTime Debounce.timerId Debounce.lastInvokeTime andb
    Debounce.leadingEdge Debounce.lastArgs fst snd ap_config ap_attributes ap_debounce].
  unfold debounceTimerFires. cbn [debounceFunctions]. rewrite getKey_setKey_eq.
  cbn [ap_debounce Debounce.timerId].
  unfold Debounce.timerExpired, Debounce.shouldInvoke. cbn [Debounce.lastCallTime].
  replace (0 <=? now3 - now2)%Z with true by (symmetry; apply Z.leb_le; lia).
  cbn [orb Debounce.trailingEdge Debounce.lastArgs Debounce.invokeFunc fst snd].
  reflexivity.
Qed.

Lemma handleNewAttributes_publishes_first_capture_witness :
  let st := mkHA [("kitchen_ble-1"%string, sampleSensorConfig "kitchen_ble-1" "Local");
                  ("distributed_ble-1"%string, sampleSensorConfig "distributed_ble-1" "Hub")]
                 [] JUndefined [] in
  getKey (entityConfigs st) (getCombinedId "kitchen" "ble-1" false) =
    Some (sampleSensorConfig "kitchen_ble-1" "Local") /\
  getKey (entityConfigs st) (getCombinedId "kitchen" "ble-1" true) =
    Some (sampleSensorConfig "distributed_ble-1" "Hub") /\
  getKey (debounceFunctions st) "ble-1" = None /\
  published (debounceTimerFires (fun s => s) (fun n => [("n"%string, JNum (inject_Z (Z.of_nat n)))])
    (handleNewAttributes "kitchen" (fun s => s) (fun _ => []) 
       (handleNewAttributes "kitchen" (fun s => s) (fun _ => []) st 10 "ble-1" 1 false)
       20 "ble-1" 2 true) "ble-1" 21) =
  [mkMessage (JStr "room-assistant/sensor/kitchen_ble-1/attributes")
             (PJson [("n"%string, JNum (inject_Z 1))]) false].
Proof.
  cbv zeta. split; [vm_compute; reflexivity|]. split; [vm_compute; reflexivity|].
  split; [vm_compute; reflexivity|].
  rewrite (handleNewAttributes_publishes_first_capture "kitchen" (fun s => s)
             (fun _ => []) (fun _ => []) (fun n => [("n"%string, JNum (inject_Z (Z.of_nat n)))])
             _ 10 20 21 "ble-1" 1 2 false true
             (sampleSensorConfig "kitchen_ble-1" "Local")
             (sampleSensorConfig "distributed_ble-1" "Hub")); [|vm_compute; reflexivity..|lia].
  vm_compute. reflexivity.
Defined.

